(** * BSC USDT gateway: amount tagging and deposit reconciliation

    A shallow embedding of [src/index.js].  The file holds the two variants
    of the gateway that the repository carries:

    - the in-memory variant (a JavaScript [Map] of invoices and a single
      [lastProcessedTime] high-water mark), in [Module Mem];
    - the Postgres variant (tables [invoices] and [processed_txs]), in
      [Module Db].

    JavaScript numbers are IEEE-754 binary64 values, modelled by Rocq's
    primitive floats; amounts travel as decimal strings, modelled by
    [string]; token values in smallest units are [Z]. *)

From Stdlib Require Import ZArith NArith Bool List String Ascii Lia Floats.
Import ListNotations.

Set Warnings "-inexact-float".

Local Open Scope string_scope.
Local Open Scope Z_scope.

(* ================================================================= *)
(** ** JavaScript numbers *)

Module JsNumber.

(** The float nearest to the integer [n] (exact below 2^53). *)
Definition of_Z (n : Z) : float :=
  SF2Prim (binary_normalize prec emax n 0 false).

(** The float nearest to the rational [p / q], for [0 <= p] and [0 < q]:
    the quotient is taken with enough extra bits and a sticky bit, then
    rounded once to nearest-even. *)
Definition of_ratio (p q : Z) : float :=
  if p =? 0 then 0%float
  else
    let k := 64 + Z.max 0 (Z.log2 q - Z.log2 p + 1) in
    let num := p * 2 ^ k in
    let quo := num / q in
    let sticky := if num mod q =? 0 then 0 else 1 in
    SF2Prim (binary_normalize prec emax (2 * quo + sticky) (- k - 1) false).

(** [round_half_up m e] is the integer nearest to [m * 2^e], ties going to
    the larger integer: floor (m * 2^e + 1/2). *)
Definition round_half_up (m e : Z) : Z :=
  if 0 <=? e then m * 2 ^ e
  else (2 * m + 2 ^ (- e)) / 2 ^ (1 - e).

(** [Math.round]: nearest integer, ties towards +infinity; NaN, the
    infinities and the zeros are returned as they are, and a negative
    argument that rounds to zero gives -0. *)
Definition Math_round (x : float) : float :=
  match Prim2SF x with
  | S754_finite s m e =>
      if 0 <=? e then x
      else
        let n := round_half_up (if s then Z.neg m else Z.pos m) e in
        if (n =? 0) && s then (- 0)%float else of_Z n
  | _ => x
  end.

(** [Number.isFinite]. *)
Definition isFinite (x : float) : bool :=
  match Prim2SF x with
  | S754_zero _ | S754_finite _ _ _ => true
  | _ => false
  end.

(** SameValueZero, the equality of [Set.prototype.has] on numbers: NaN is
    equal to NaN and +0 to -0. *)
Definition same_value_zero (x y : float) : bool :=
  PrimFloat.eqb x y || (PrimFloat.is_nan x && PrimFloat.is_nan y).

End JsNumber.

(* ================================================================= *)
(** ** Decimal digit strings *)

Module Digits.

Definition digit_char (d : N) : ascii := ascii_of_N (48 + d).

Definition digit_val (c : ascii) : option N :=
  let n := N_of_ascii c in
  if ((48 <=? n) && (n <=? 57))%N then Some (n - 48)%N else None.

Definition is_digit (c : ascii) : bool :=
  match digit_val c with Some _ => true | None => false end.

Fixpoint all_digits (s : string) : bool :=
  match s with
  | EmptyString => true
  | String c r => is_digit c && all_digits r
  end.

(** Value of a digit string read from the left, starting from [acc]. *)
Fixpoint value_acc (s : string) (acc : N) : option N :=
  match s with
  | EmptyString => Some acc
  | String c r =>
      match digit_val c with
      | Some d => value_acc r (10 * acc + d)%N
      | None => None
      end
  end.

Definition value (s : string) : option N := value_acc s 0%N.

(** The [k] least significant decimal digits of [n], most significant
    first, with leading zeros. *)
Fixpoint fixed (k : nat) (n : N) : string :=
  match k with
  | O => EmptyString
  | S k' => fixed k' (n / 10)%N ++ String (digit_char (n mod 10)%N) EmptyString
  end.

(** Drops leading zeros, keeping the last character. *)
Fixpoint strip_leading (s : string) : string :=
  match s with
  | String c (String _ _ as r) =>
      if Ascii.eqb c "0" then strip_leading r else s
  | _ => s
  end.

(** [BigInt.prototype.toString] on a non-negative integer. *)
Definition of_N (n : N) : string :=
  strip_leading (fixed (S (N.to_nat (N.size n))) n).

(** Drops every trailing zero. *)
Fixpoint strip_trailing (s : string) : string :=
  match s with
  | EmptyString => EmptyString
  | String c r =>
      match strip_trailing r with
      | EmptyString => if Ascii.eqb c "0" then EmptyString else String c EmptyString
      | r' => String c r'
      end
  end.

(** [k] zeros. *)
Fixpoint zeros (k : nat) : string :=
  match k with
  | O => EmptyString
  | S k' => String "0" (zeros k')
  end.

(** First [k] characters, and what follows them. *)
Fixpoint take (k : nat) (s : string) : string :=
  match k, s with
  | S k', String c r => String c (take k' r)
  | _, _ => EmptyString
  end.

Fixpoint drop (k : nat) (s : string) : string :=
  match k, s with
  | S k', String _ r => drop k' r
  | _, _ => s
  end.

Fixpoint all_zeros (s : string) : bool :=
  match s with
  | EmptyString => true
  | String c r => Ascii.eqb c "0" && all_zeros r
  end.

(** Splits at the first ["."]: the part before it, and the part after it
    when there is one. *)
Fixpoint split_dot (s : string) : string * option string :=
  match s with
  | EmptyString => (EmptyString, None)
  | String c r =>
      if Ascii.eqb c "." then (EmptyString, Some r)
      else let '(w, f) := split_dot r in (String c w, f)
  end.

End Digits.

(* ================================================================= *)
(** ** The library calls the gateway makes on amounts *)

(** [Number::toString] on a finite number of magnitude 1e21 or more,
    which is the integer [X]: the digits are the shortest decimal that
    reads back as the same number (the nearest to [X] when two of that
    length do, the even one on a tie), written in exponent notation. *)
Module JsToString.

(** Among the integers with [k] significant digits at the scale of [X],
    the one that reads back as [x], if any: [unit] is the weight of the
    last of the [k] digits. *)
Definition candidate (x : float) (X unit : Z) : option Z :=
  let lower := X / unit * unit in
  let upper := lower + unit in
  let okL := PrimFloat.eqb (JsNumber.of_Z lower) x in
  let okU := PrimFloat.eqb (JsNumber.of_Z upper) x in
  match okL, okU with
  | true, false => Some lower
  | false, true => Some upper
  | false, false => None
  | true, true =>
      if X - lower <? upper - X then Some lower
      else if upper - X <? X - lower then Some upper
      else if Z.even (lower / unit) then Some lower else Some upper
  end.

(** Tries [unit = 10^e], [10^(e-1)], ..., 1: fewer digits first. *)
Fixpoint shortest (x : float) (X : Z) (e : nat) : Z :=
  match candidate x X (10 ^ Z.of_nat e) with
  | Some t => t
  | None =>
      match e with
      | O => X
      | S e' => shortest x X e'
      end
  end.

(** [t] in exponent notation: its digits without the trailing zeros, a
    point after the first when more follow, and the exponent. *)
Definition exponent_form (t : Z) : string :=
  let all := Digits.of_N (Z.to_N t) in
  let exponent := Digits.of_N (N.of_nat (String.length all - 1)) in
  match Digits.strip_trailing all with
  | String c EmptyString => String c ("e+" ++ exponent)
  | String c rest => String c ("." ++ rest ++ "e+" ++ exponent)
  | EmptyString => "0"
  end.

Definition of_large (x : float) (X : Z) : string :=
  exponent_form
    (shortest x X (String.length (Digits.of_N (Z.to_N X)) - 1)).

End JsToString.

(** [Number.prototype.toFixed(3)].  For a finite [x] below 1e21 in
    magnitude the result is the integer [n] nearest to [|x| * 1000] (the
    larger one on a tie) written with three fractional digits; from 1e21
    on it is [Number::toString] of the magnitude, after the sign. *)
Definition toFixed3 (x : float) : string :=
  match Prim2SF x with
  | S754_nan => "NaN"
  | S754_infinity s => if s then "-Infinity" else "Infinity"
  | S754_zero _ => "0.000"
  | S754_finite s m e =>
      (if s then "-" else "")
      ++ if PrimFloat.ltb (PrimFloat.abs x) 1e21 then
           let n := Z.to_N (JsNumber.round_half_up (1000 * Z.pos m) e) in
           Digits.of_N (n / 1000) ++ "." ++ Digits.fixed 3 (n mod 1000)
         else JsToString.of_large (PrimFloat.abs x) (Z.pos m * 2 ^ e)
  end.

Module Ethers.

(** The digits of [ethers.formatUnits] for a magnitude [a]: the whole part
    without leading zeros, and, when [decimals] is not 0, a point and the
    fractional digits without trailing zeros (at least one digit stays). *)
Definition format_magnitude (a : N) (decimals : nat) : string :=
  let unit := (10 ^ N.of_nat decimals)%N in
  match decimals with
  | O => Digits.of_N a
  | S _ =>
      Digits.of_N (a / unit) ++ "."
      ++ match Digits.strip_trailing (Digits.fixed decimals (a mod unit)) with
         | EmptyString => "0"
         | f => f
         end
  end.

(** [ethers.formatUnits(value, decimals)] on an integer [v].  The library's
    512-bit range check is left out: token values are 256-bit. *)
Definition formatUnits (v : Z) (decimals : nat) : string :=
  (if v <? 0 then "-" else "") ++ format_magnitude (Z.to_N (Z.abs v)) decimals.

(** The unsigned part of [ethers.parseUnits]: the text must have the shape
    [digits*.?digits*] with at least one digit (an empty whole part counts
    as 0); fractional digits beyond [decimals] must all be zero ("too many
    decimals" otherwise).  [None] stands for the exception the library
    throws. *)
Definition parse_magnitude (body : string) (decimals : nat) : option N :=
  let '(whole, frac) := Digits.split_dot body in
  let frac := match frac with Some f => f | None => EmptyString end in
  if negb (Digits.all_digits whole && Digits.all_digits frac) then None
  else if (String.length whole + String.length frac =? 0)%nat then None
  else
    let padded := frac ++ Digits.zeros (decimals - String.length frac) in
    if negb (Digits.all_zeros (Digits.drop decimals padded)) then None
    else Digits.value (whole ++ Digits.take decimals padded).

(** [ethers.parseUnits(text, decimals)], with its optional leading ["-"]. *)
Definition parseUnits (text : string) (decimals : nat) : option Z :=
  match text with
  | String c r =>
      if Ascii.eqb c "-" then
        option_map (fun n => - Z.of_N n) (parse_magnitude r decimals)
      else option_map Z.of_N (parse_magnitude text decimals)
  | EmptyString => None
  end.

End Ethers.

(* ================================================================= *)
(** ** Shared pieces of the two variants *)

(** [String.prototype.toLowerCase] on ASCII text (addresses and
    transaction hashes are hexadecimal). *)
Definition lower_ascii (c : ascii) : ascii :=
  let n := N_of_ascii c in
  if ((65 <=? n) && (n <=? 90))%N then ascii_of_N (n + 32) else c.

Fixpoint toLowerCase (s : string) : string :=
  match s with
  | EmptyString => EmptyString
  | String c r => String (lower_ascii c) (toLowerCase r)
  end.

(** The environment of a running gateway. *)
Record Config := {
  TAG_STEP : float;
  TAG_MAX : float;
  DECIMALS : nat;
  wallet_address : string
}.

Definition default_config (address : string) : Config :=
  {| TAG_STEP := 0.001; TAG_MAX := 0.099; DECIMALS := 18;
     wallet_address := address |}.

(** One entry of the explorer's [tokentx] page.  [timeStamp] is
    [Number(t.timeStamp || "0")] (0 also for a missing or unreadable
    field); [to] is [""] when absent; [value] is the raw token amount,
    [None] when the field is not an integer literal (the library then
    throws); [hash] is [None] when the field is absent or null. *)
Record Transfer := {
  timeStamp : Z;
  to : string;
  value : option Z;
  hash : option string
}.

(** [t.hash || ""]. *)
Definition hash_text (t : Transfer) : string :=
  match hash t with
  | Some h => h
  | None => ""
  end.

Definition blank_transfer : Transfer :=
  {| timeStamp := 0; to := ""; value := None; hash := None |}.

(** The [result] field of the explorer's answer. *)
Inductive FeedResult :=
| ResultAbsent
| ResultText (message : string)
| ResultList (entries : list Transfer).

(** The explorer's JSON answer: [status] is [Some s] when the field is the
    string [s]. *)
Record FeedData := {
  fd_status : option string;
  fd_result : FeedResult
}.

Definition result_falsy (r : FeedResult) : bool :=
  match r with
  | ResultAbsent => true
  | ResultText EmptyString => true
  | _ => false
  end.

Fixpoint chars_as_entries (s : string) : list Transfer :=
  match s with
  | EmptyString => []
  | String _ r => blank_transfer :: chars_as_entries r
  end.

(** [fetchIncomingUsdtTransfers], after the HTTP exchange: [None] is a
    null body.  A text [result] under status ["1"] is returned as it is;
    the loop then iterates over its characters, which carry no field. *)
Definition fetchIncomingUsdtTransfers (data : option FeedData) : list Transfer :=
  match data with
  | None => []
  | Some d =>
      if result_falsy (fd_result d) then []
      else
        match fd_status d with
        | Some "1" =>
            match fd_result d with
            | ResultList l => l
            | ResultText s => chars_as_entries s
            | ResultAbsent => []
            end
        | _ => []
        end
  end.

Definition roundTo3 (n : float) : float :=
  (JsNumber.Math_round (n * 1000) / 1000)%float.

Definition formatTokenAmount (cfg : Config) (rawValue : option Z) : option string :=
  match rawValue with
  | Some v => Some (Ethers.formatUnits v (DECIMALS cfg))
  | None => None
  end.

(** [amountsEqual]: [None] when either [parseUnits] throws. *)
Definition amountsEqual (cfg : Config) (aStr bStr : string) : option bool :=
  match Ethers.parseUnits aStr (DECIMALS cfg), Ethers.parseUnits bStr (DECIMALS cfg) with
  | Some a, Some b => Some (a =? b)
  | _, _ => None
  end.

(** Values held by the [used] set of the allocators. *)
Inductive JsVal :=
| JNum (x : float)
| JStr (s : string).

(** SameValueZero: values of different types are never equal. *)
Definition same_value_zero (a b : JsVal) : bool :=
  match a, b with
  | JNum x, JNum y => JsNumber.same_value_zero x y
  | JStr s, JStr t => String.eqb s t
  | _, _ => false
  end.

(** [Set.prototype.has]. *)
Definition set_has (used : list JsVal) (v : JsVal) : bool :=
  existsb (same_value_zero v) used.

(** The scan of both allocators, from the current [t]:
    [for (...; t <= TAG_MAX + 1e-12; t += TAG_STEP)].  The outer [None]
    means that [fuel] iterations did not finish the loop; [Some None] is
    the [null] returned after the loop. *)
Fixpoint allocate_scan (fuel : nat) (cfg : Config) (used : list JsVal) (t : float)
  : option (option float) :=
  match fuel with
  | O => None
  | S fuel' =>
      if PrimFloat.leb t (TAG_MAX cfg + 1e-12)%float then
        let tag := roundTo3 t in
        if negb (set_has used (JNum tag)) then Some (Some tag)
        else allocate_scan fuel' cfg used (t + TAG_STEP cfg)%float
      else Some None
  end.

Inductive Status := pending | confirmed.

Definition is_pending (s : Status) : bool :=
  match s with pending => true | confirmed => false end.

(** The invoice object of the in-memory store, and the JSON body both
    variants answer with. *)
Record Invoice := {
  id : string;
  requestedAmount : string;
  tag : string;
  payAmount : string;
  status : Status;
  toAddress : string;
  createdAt : Z;
  txHash : option string
}.

Inductive Response :=
| R200 (inv : Invoice)
| R400
| R500
| R503
| RHang.         (* the allocator's loop did not finish within the fuel *)

(** What a reconciliation cycle prints. *)
Inductive LogEvent :=
| LogIncoming (receivedAmount : string) (txHash : option string) (time : Z)
| LogConfirmed (invoiceId receivedAmount txHash : string)
| LogNoMatch (receivedAmount txHash : string)
| LogError.

(** The request-body check of [POST /api/invoices]: [amount] is the JSON
    number sent ([None] when the field is absent). *)
Definition amount_rejected (amount : option float) : bool :=
  match amount with
  | None => true
  | Some n =>
      PrimFloat.eqb n 0 || PrimFloat.is_nan n   (* !amount *)
      || negb (JsNumber.isFinite n)
      || PrimFloat.leb n 0
  end.

(* ================================================================= *)
(** ** The in-memory variant *)

Module Mem.

(** [invoices] is a [Map] from id to invoice object, iterated in insertion
    order; [lastProcessedTime] is the high-water mark. *)
Record State := {
  invoices : list (string * Invoice);
  lastProcessedTime : Z;
  log : list LogEvent
}.

Definition init : State :=
  {| invoices := []; lastProcessedTime := 0; log := [] |}.

(** [Map.prototype.set]: an existing key keeps its place. *)
Fixpoint map_set (k : string) (v : Invoice) (m : list (string * Invoice))
  : list (string * Invoice) :=
  match m with
  | [] => [(k, v)]
  | (k', v') :: r =>
      if String.eqb k k' then (k, v) :: r else (k', v') :: map_set k v r
  end.

(** The first loop of [allocateTag]: [used.add(inv.tag)] for each pending
    invoice.  [inv.tag] is the string that [toFixed(3)] produced. *)
Fixpoint used_tags (m : list (string * Invoice)) : list JsVal :=
  match m with
  | [] => []
  | (_, inv) :: r =>
      if is_pending (status inv) then JStr (tag inv) :: used_tags r
      else used_tags r
  end.

Definition allocateTag (fuel : nat) (cfg : Config) (s : State) : option (option float) :=
  allocate_scan fuel cfg (used_tags (invoices s)) (TAG_STEP cfg).

(** [POST /api/invoices]; [new_id] is what [crypto.randomUUID()] returns
    and [now] the clock. *)
Definition post_invoice (fuel : nat) (cfg : Config)
    (amount : option float) (new_id : string) (now : Z) (s : State)
  : Response * State :=
  if amount_rejected amount then (R400, s)
  else
    let n := match amount with Some n => n | None => 0%float end in
    match allocateTag fuel cfg s with
    | None => (RHang, s)
    | Some None => (R503, s)
    | Some (Some tag) =>
        let requestedAmount := roundTo3 n in
        let payAmount := roundTo3 (requestedAmount + tag) in
        let inv := {| id := new_id;
                      requestedAmount := toFixed3 requestedAmount;
                      tag := toFixed3 tag;
                      payAmount := toFixed3 payAmount;
                      status := pending;
                      toAddress := wallet_address cfg; createdAt := now;
                      txHash := None |} in
        (R200 inv,
         {| invoices := map_set new_id inv (invoices s);
            lastProcessedTime := lastProcessedTime s;
            log := log s |})
    end.

(** [GET /api/invoices/:id]. *)
Fixpoint map_get (k : string) (m : list (string * Invoice)) : option Invoice :=
  match m with
  | [] => None
  | (k', v) :: r => if String.eqb k k' then Some v else map_get k r
  end.

(** [inv.status = "confirmed"; inv.txHash = txHash], where [txHash] is
    the entry's [hash] field as it came. *)
Definition confirm_invoice (inv : Invoice) (tx : option string) : Invoice :=
  {| id := id inv; requestedAmount := requestedAmount inv; tag := tag inv;
     payAmount := payAmount inv; status := confirmed;
     toAddress := toAddress inv; createdAt := createdAt inv;
     txHash := tx |}.

(** The inner loop of [depositLoop]: the first pending invoice whose
    [payAmount] equals the received amount is confirmed in place.  [None]
    when [amountsEqual] throws; no invoice has been touched by then. *)
Fixpoint settle (cfg : Config) (receivedAmount : string) (tx : option string)
    (m : list (string * Invoice)) : option (list (string * Invoice)) :=
  match m with
  | [] => Some []
  | (k, inv) :: r =>
      if negb (is_pending (status inv)) then
        option_map (cons (k, inv)) (settle cfg receivedAmount tx r)
      else
        match amountsEqual cfg (payAmount inv) receivedAmount with
        | None => None
        | Some true => Some ((k, confirm_invoice inv tx) :: r)
        | Some false => option_map (cons (k, inv)) (settle cfg receivedAmount tx r)
        end
  end.

Definition add_log (e : LogEvent) (s : State) : State :=
  {| invoices := invoices s; lastProcessedTime := lastProcessedTime s;
     log := (log s ++ [e])%list |}.

(** One iteration of [for (const t of transfers)].  The boolean tells
    whether the iteration threw. *)
Definition step (cfg : Config) (t : Transfer) (s : State) : State * bool :=
  let time := timeStamp t in
  if time =? 0 then (s, false)
  else if time <=? lastProcessedTime s then (s, false)
  else if negb (String.eqb (toLowerCase (to t)) (toLowerCase (wallet_address cfg)))
  then (s, false)
  else
    match formatTokenAmount cfg (value t) with
    | None => (s, true)
    | Some receivedAmount =>
        let s1 := add_log (LogIncoming receivedAmount (hash t) time) s in
        match settle cfg receivedAmount (hash t) (invoices s1) with
        | None => (s1, true)
        | Some m =>
            ({| invoices := m; lastProcessedTime := lastProcessedTime s1;
                log := log s1 |}, false)
        end
    end.

Fixpoint steps (cfg : Config) (ts : list Transfer) (s : State) : State * bool :=
  match ts with
  | [] => (s, false)
  | t :: r =>
      match step cfg t s with
      | (s', true) => (s', true)
      | (s', false) => steps cfg r s'
      end
  end.

(** The statement after the loop: the mark moves to the first entry's
    time stamp when that is newer. *)
Definition advance_mark (ts : list Transfer) (s : State) : State :=
  match ts with
  | [] => s
  | t0 :: _ =>
      if lastProcessedTime s <? timeStamp t0 then
        {| invoices := invoices s; lastProcessedTime := timeStamp t0;
           log := log s |}
      else s
  end.

(** One run of [depositLoop] on the explorer's answer; [None] is a failed
    HTTP exchange, which throws before anything is read. *)
Definition depositLoop (cfg : Config) (answer : option (option FeedData)) (s : State)
  : State :=
  match answer with
  | None => add_log LogError s
  | Some data =>
      let transfers := fetchIncomingUsdtTransfers data in
      match steps cfg transfers s with
      | (s', true) => add_log LogError s'
      | (s', false) => advance_mark transfers s'
      end
  end.

End Mem.

(* ================================================================= *)
(** ** The Postgres variant *)

Module Db.

(** A [NUMERIC(30, 18)] value, held as its count of 10^-18 units. *)
Definition numeric := Z.

Definition numeric_unit : N := (10 ^ 18)%N.

(** Text to [NUMERIC(30, 18)], on the texts the gateway sends: three
    fractional digits below 1e21, and exponent notation, ["Infinity"] or
    ["NaN"] beyond, which mean more than twelve integer digits or no
    number.  [None] when the server rejects the text or the value needs
    more than twelve integer digits. *)
Definition numeric_in (text : string) : option numeric :=
  match Ethers.parseUnits text 18 with
  | Some v => if Z.abs v <? 10 ^ 30 then Some v else None
  | None => None
  end.

(** What the driver hands back for a [NUMERIC(30, 18)] column: the value
    written with all eighteen fractional digits. *)
Definition numeric_out (v : numeric) : string :=
  let a := Z.to_N (Z.abs v) in
  (if v <? 0 then "-" else "")
  ++ Digits.of_N (a / numeric_unit) ++ "." ++ Digits.fixed 18 (a mod numeric_unit).

(** [Number(r.tag)]: the float nearest to the decimal value. *)
Definition Number_of_numeric (v : numeric) : float :=
  if v <? 0 then (- JsNumber.of_ratio (- v) (Z.of_N numeric_unit))%float
  else JsNumber.of_ratio v (Z.of_N numeric_unit).

(** A row of table [invoices]. *)
Record Row := {
  row_id : string;
  requested_amount : numeric;
  row_tag : numeric;
  pay_amount : numeric;
  row_status : Status;
  to_address : string;
  created_at : Z;
  tx_hash : option string
}.

(** Tables [invoices] and [processed_txs] (hash, [seen_at]), and what the
    process printed. *)
Record State := {
  invoices : list Row;
  processed_txs : list (string * Z);
  log : list LogEvent
}.

Definition init : State :=
  {| invoices := []; processed_txs := []; log := [] |}.

(** [SELECT ... FROM invoices WHERE status='pending']. *)
Definition select_pending (rows : list Row) : list Row :=
  filter (fun r => is_pending (row_status r)) rows.

Definition allocateTagFromDb (fuel : nat) (cfg : Config) (s : State)
  : option (option float) :=
  let used := map (fun r => JNum (Number_of_numeric (row_tag r)))
                  (select_pending (invoices s)) in
  allocate_scan fuel cfg used (TAG_STEP cfg).

(** The [INSERT] of the route: it fails on a text the column rejects, on
    an id already present (primary key) and on a [pay_amount] already
    present in any row ([UNIQUE]). *)
Definition insert_invoice (new_id req tg pay address : string) (now : Z)
    (rows : list Row) : option (list Row) :=
  match numeric_in req, numeric_in tg, numeric_in pay with
  | Some vreq, Some vtag, Some vpay =>
      if existsb (fun r => String.eqb (row_id r) new_id) rows then None
      else if existsb (fun r => pay_amount r =? vpay) rows then None
      else Some (rows ++ [{| row_id := new_id; requested_amount := vreq;
                             row_tag := vtag; pay_amount := vpay;
                             row_status := pending; to_address := address;
                             created_at := now; tx_hash := None |}])%list
  | _, _, _ => None
  end.

Definition add_log (e : LogEvent) (s : State) : State :=
  {| invoices := invoices s; processed_txs := processed_txs s;
     log := (log s ++ [e])%list |}.

(** [POST /api/invoices]. *)
Definition post_invoice (fuel : nat) (cfg : Config)
    (amount : option float) (new_id : string) (now : Z) (s : State)
  : Response * State :=
  if amount_rejected amount then (R400, s)
  else
    let n := match amount with Some n => n | None => 0%float end in
    match allocateTagFromDb fuel cfg s with
    | None => (RHang, s)
    | Some None => (R503, s)
    | Some (Some tag) =>
        let requestedAmount := roundTo3 n in
        let payAmount := roundTo3 (requestedAmount + tag) in
        let req := toFixed3 requestedAmount in
        let tg := toFixed3 tag in
        let pay := toFixed3 payAmount in
        let inv := {| id := new_id; requestedAmount := req; tag := tg;
                      payAmount := pay; status := pending;
                      toAddress := wallet_address cfg; createdAt := now;
                      txHash := None |} in
        match insert_invoice new_id req tg pay (wallet_address cfg) now
                             (invoices s) with
        | Some rows =>
            (R200 inv,
             {| invoices := rows; processed_txs := processed_txs s;
                log := log s |})
        | None => (R500, add_log LogError s)
        end
    end.

(** [UPDATE invoices SET status='confirmed', tx_hash=$1
     WHERE id=$2 AND status='pending']. *)
Definition confirm (tx : string) (target : string) (rows : list Row) : list Row :=
  map (fun r =>
         if String.eqb (row_id r) target && is_pending (row_status r) then
           {| row_id := row_id r; requested_amount := requested_amount r;
              row_tag := row_tag r; pay_amount := pay_amount r;
              row_status := confirmed; to_address := to_address r;
              created_at := created_at r; tx_hash := Some tx |}
         else r)
      rows.

(** The matching loop over the pending rows: [Some (Some id)] is the first
    row whose [pay_amount] equals the received amount, [Some None] is no
    match, [None] is [amountsEqual] throwing. *)
Fixpoint find_match (cfg : Config) (receivedAmount : string) (rows : list Row)
  : option (option string) :=
  match rows with
  | [] => Some None
  | r :: rest =>
      match amountsEqual cfg (numeric_out (pay_amount r)) receivedAmount with
      | None => None
      | Some true => Some (Some (row_id r))
      | Some false => find_match cfg receivedAmount rest
      end
  end.

(** [SELECT 1 FROM processed_txs WHERE tx_hash=$1]. *)
Definition is_processed (txHash : string) (ledger : list (string * Z)) : bool :=
  existsb (fun e => String.eqb (fst e) txHash) ledger.

(** [INSERT INTO processed_txs (tx_hash) VALUES ($1) ON CONFLICT DO NOTHING]. *)
Definition mark_processed (txHash : string) (now : Z) (ledger : list (string * Z))
  : list (string * Z) :=
  if is_processed txHash ledger then ledger else (ledger ++ [(txHash, now)])%list.

(** Thirty days, in seconds. *)
Definition retention : Z := 30 * 24 * 3600.

(** [DELETE FROM processed_txs WHERE seen_at < NOW() - INTERVAL '30 days']. *)
Definition prune (now : Z) (ledger : list (string * Z)) : list (string * Z) :=
  filter (fun e => negb (snd e <? now - retention)) ledger.

(** The queries one iteration sends, in order. *)
Inductive Query :=
| SelectLedger     (* SELECT 1 FROM processed_txs WHERE tx_hash=$1 *)
| SelectPending    (* SELECT id, pay_amount FROM invoices WHERE status='pending' *)
| UpdateInvoice    (* UPDATE invoices SET status='confirmed', ... *)
| InsertLedger.    (* INSERT INTO processed_txs ... ON CONFLICT DO NOTHING *)

Definition query_eqb (a b : Query) : bool :=
  match a, b with
  | SelectLedger, SelectLedger | SelectPending, SelectPending
  | UpdateInvoice, UpdateInvoice | InsertLedger, InsertLedger => true
  | _, _ => false
  end.

(** Whether Postgres rejects query [q] in this iteration. *)
Definition rejects (rejected : option Query) (q : Query) : bool :=
  match rejected with
  | Some r => query_eqb r q
  | None => false
  end.

(** One iteration of [for (const t of transfers)] at clock reading [now].
    [rejected] is the query of this iteration that Postgres rejects, if
    any: [await pool.query] then throws and the query has changed nothing.
    The boolean tells whether the iteration threw. *)
Definition step_with (rejected : option Query) (cfg : Config) (now : Z)
    (t : Transfer) (s : State) : State * bool :=
  let txHash := toLowerCase (hash_text t) in
  if String.eqb txHash "" then (s, false)
  else if negb (String.eqb (toLowerCase (to t)) (toLowerCase (wallet_address cfg)))
  then (s, false)
  else if rejects rejected SelectLedger then (s, true)
  else if is_processed txHash (processed_txs s) then (s, false)
  else
    match formatTokenAmount cfg (value t) with
    | None => (s, true)
    | Some receivedAmount =>
        if rejects rejected SelectPending then (s, true)
        else
          match find_match cfg receivedAmount (select_pending (invoices s)) with
          | None => (s, true)
          | Some (Some matchedInvoiceId) =>
              if rejects rejected UpdateInvoice then (s, true)
              else
                let s1 :=
                  {| invoices := confirm (hash_text t) matchedInvoiceId (invoices s);
                     processed_txs := processed_txs s;
                     log := (log s ++ [LogConfirmed matchedInvoiceId receivedAmount
                                         (hash_text t)])%list |} in
                if rejects rejected InsertLedger then (s1, true)
                else
                  ({| invoices := invoices s1;
                      processed_txs := mark_processed txHash now (processed_txs s);
                      log := log s1 |}, false)
          | Some None =>
              let s1 :=
                {| invoices := invoices s;
                   processed_txs := processed_txs s;
                   log := (log s ++ [LogNoMatch receivedAmount txHash])%list |} in
              if rejects rejected InsertLedger then (s1, true)
              else
                ({| invoices := invoices s;
                    processed_txs := mark_processed txHash now (processed_txs s);
                    log := log s1 |}, false)
          end
    end.

(** The iteration in which Postgres answers every query: the cycles below
    are made of these. *)
Definition step (cfg : Config) (now : Z) (t : Transfer) (s : State) : State * bool :=
  step_with None cfg now t s.

Fixpoint steps (cfg : Config) (now : Z) (ts : list Transfer) (s : State) : State * bool :=
  match ts with
  | [] => (s, false)
  | t :: r =>
      match step cfg now t s with
      | (s', true) => (s', true)
      | (s', false) => steps cfg now r s'
      end
  end.

(** One run of [depositLoop] at clock reading [now]; [None] is a failed
    HTTP exchange.  The ledger is pruned when the loop did not throw. *)
Definition depositLoop (cfg : Config) (now : Z)
    (answer : option (option FeedData)) (s : State) : State :=
  match answer with
  | None => add_log LogError s
  | Some data =>
      match steps cfg now (fetchIncomingUsdtTransfers data) s with
      | (s', true) => add_log LogError s'
      | (s', false) =>
          {| invoices := invoices s';
             processed_txs := prune now (processed_txs s');
             log := log s' |}
      end
  end.

End Db.

(* ================================================================= *)
(** ** Runs and observations *)

(** The pay amounts of the pending invoices of the in-memory store, in
    store order. *)
Definition mem_pending_payAmounts (s : Mem.State) : list string :=
  map (fun e => payAmount (snd e))
      (filter (fun e => is_pending (status (snd e))) (Mem.invoices s)).

Definition mem_status (k : string) (s : Mem.State) : option Status :=
  option_map status (Mem.map_get k (Mem.invoices s)).

(** [n] runs of the in-memory [depositLoop], run [i] reading page [pages i]. *)
Fixpoint mem_poll (cfg : Config) (pages : nat -> list Transfer) (n : nat)
    (s : Mem.State) : Mem.State :=
  match n with
  | O => s
  | S n' =>
      Mem.depositLoop cfg
        (Some (Some {| fd_status := Some "1"; fd_result := ResultList (pages n') |}))
        (mem_poll cfg pages n' s)
  end.





Definition db_row (k : string) (s : Db.State) : option Db.Row :=
  find (fun r => String.eqb (Db.row_id r) k) (Db.invoices s).

(** What happens to the Postgres variant: a request to create an invoice,
    or a run of [depositLoop]. *)
Inductive DbEvent :=
| Post (amount : option float) (new_id : string)
| Poll (answer : option (option FeedData)).

(** A history of events, each with the clock reading it happens at. *)
Fixpoint db_run (fuel : nat) (cfg : Config) (evs : list (Z * DbEvent))
    (s : Db.State) : Db.State :=
  match evs with
  | [] => s
  | (now, Post amount new_id) :: r =>
      db_run fuel cfg r (snd (Db.post_invoice fuel cfg amount new_id now s))
  | (now, Poll answer) :: r =>
      db_run fuel cfg r (Db.depositLoop cfg now answer s)
  end.

Definition page (l : list Transfer) : option (option FeedData) :=
  Some (Some {| fd_status := Some "1"; fd_result := ResultList l |}).

(** The grid point [k / 1000] as a JavaScript number. *)
Definition slot (k : Z) : float := JsNumber.of_ratio k 1000.

(** The tags the allocators' loop visits, in order: [None] when [fuel]
    iterations do not reach the end of the loop. *)
Fixpoint visited (fuel : nat) (cfg : Config) (t : float) : option (list float) :=
  match fuel with
  | O => None
  | S fuel' =>
      if PrimFloat.leb t (TAG_MAX cfg + 1e-12)%float then
        option_map (cons (roundTo3 t)) (visited fuel' cfg (t + TAG_STEP cfg)%float)
      else Some []
  end.

(** What one iteration can do when every query is answered. *)
Inductive step_outcome (cfg : Config) (now : Z) (t : Transfer) (s : Db.State)
  : Db.State * bool -> Prop :=
| step_skips : step_outcome cfg now t s (s, false)
| step_throws : step_outcome cfg now t s (s, true)
| step_confirms (received matched : string) :
    Db.is_processed (toLowerCase (hash_text t)) (Db.processed_txs s) = false ->
    step_outcome cfg now t s
      ({| Db.invoices := Db.confirm (hash_text t) matched (Db.invoices s);
          Db.processed_txs :=
            Db.mark_processed (toLowerCase (hash_text t)) now (Db.processed_txs s);
          Db.log := (Db.log s ++ [LogConfirmed matched received (hash_text t)])%list |},
       false)
| step_logs_no_match (received : string) :
    Db.is_processed (toLowerCase (hash_text t)) (Db.processed_txs s) = false ->
    step_outcome cfg now t s
      ({| Db.invoices := Db.invoices s;
          Db.processed_txs :=
            Db.mark_processed (toLowerCase (hash_text t)) now (Db.processed_txs s);
          Db.log := (Db.log s ++ [LogNoMatch received (toLowerCase (hash_text t))])%list |},
       false).




(* ================================================================= *)
(** ** Lookups and histories of the in-memory variant *)

(** [GET /api/invoices/:id] of the in-memory variant: [None] is the 404
    answer. *)
Definition mem_get_invoice (k : string) (s : Mem.State) : option Invoice :=
  Mem.map_get k (Mem.invoices s).

(** [GET /api/invoices/:id] of the Postgres variant: the row of that id,
    its amounts printed by [String] from the driver's text; [None] is the
    404 answer. *)
Definition db_get_invoice (k : string) (s : Db.State) : option Invoice :=
  match filter (fun r => String.eqb (Db.row_id r) k) (Db.invoices s) with
  | [] => None
  | r :: _ =>
      Some {| id := Db.row_id r;
              requestedAmount := Db.numeric_out (Db.requested_amount r);
              tag := Db.numeric_out (Db.row_tag r);
              payAmount := Db.numeric_out (Db.pay_amount r);
              status := Db.row_status r;
              toAddress := Db.to_address r;
              createdAt := Db.created_at r;
              txHash := Db.tx_hash r |}
  end.

(** What happens to the in-memory variant. *)
Inductive MemEvent :=
| MPost (amount : option float) (new_id : string) (now : Z)
| MPoll (answer : option (option FeedData)).

Fixpoint mem_run (fuel : nat) (cfg : Config) (evs : list MemEvent)
    (s : Mem.State) : Mem.State :=
  match evs with
  | [] => s
  | MPost amount new_id now :: r =>
      mem_run fuel cfg r (snd (Mem.post_invoice fuel cfg amount new_id now s))
  | MPoll answer :: r =>
      mem_run fuel cfg r (Mem.depositLoop cfg answer s)
  end.

(** A row is pending exactly when it has no transaction hash. *)
Definition row_consistent (r : Db.Row) : Prop :=
  Db.row_status r = pending <-> Db.tx_hash r = None.

(** The keys of table [invoices] are distinct, as its [PRIMARY KEY] and
    [UNIQUE] constraints demand. *)
Definition keys_distinct (rows : list Db.Row) : Prop :=
  NoDup (map Db.row_id rows) /\ NoDup (map Db.pay_amount rows).

(** The integers [lo], [lo + 1], ..., [lo + n - 1]. *)
Fixpoint Zseq (lo : Z) (n : nat) : list Z :=
  match n with
  | O => []
  | S n' => lo :: Zseq (lo + 1) n'
  end.

(** Whether tag [g] is the tag of no pending row. *)
Definition db_tag_free (rows : list Db.Row) (g : float) : bool :=
  negb (existsb (fun r => JsNumber.same_value_zero g (Db.Number_of_numeric (Db.row_tag r)))
                (Db.select_pending rows)).

Definition count_confirmed (rows : list Db.Row) : nat :=
  List.length (filter (fun r => negb (is_pending (Db.row_status r))) rows).

Definition is_confirmation (e : LogEvent) : bool :=
  match e with
  | LogConfirmed _ _ _ => true
  | _ => false
  end.

(** A property of table [invoices] that the conditional update keeps. *)
Definition kept (P : list Db.Row -> Prop) : Prop :=
  forall tx target rows, P rows -> P (Db.confirm tx target rows).


(** No pending invoice of [m] has the received amount: the comparison
    answers false on each of them. *)
Definition none_matches (cfg : Config) (received : string)
    (m : list (string * Invoice)) : Prop :=
  Forall (fun e => status (snd e) = pending ->
                   amountsEqual cfg (payAmount (snd e)) received = Some false) m.

(** The keys of the [Map] are distinct, each is the id of its invoice, and
    a pending invoice has no hash. *)
Definition store_consistent (m : list (string * Invoice)) : Prop :=
  NoDup (map fst m)
  /\ Forall (fun e => fst e = id (snd e)
                      /\ (status (snd e) = pending -> txHash (snd e) = None)) m.

(** The confirmed invoices are as many as the confirmations printed, and
    the keys of the table are distinct. *)
Definition confirmations_accounted (s : Db.State) : Prop :=
  keys_distinct (Db.invoices s)
  /\ count_confirmed (Db.invoices s)
     = List.length (filter is_confirmation (Db.log s)).

(** The hashes of the ledger are distinct, lower-case and not empty. *)
Definition ledger_wellformed (ledger : list (string * Z)) : Prop :=
  NoDup (map fst ledger)
  /\ Forall (fun e => toLowerCase (fst e) = fst e /\ fst e <> "") ledger.

(** The columns of a row that are written at creation only. *)
Definition row_core (r : Db.Row) : string * Db.numeric * Db.numeric * Db.numeric * string * Z :=
  (Db.row_id r, Db.requested_amount r, Db.row_tag r, Db.pay_amount r,
   Db.to_address r, Db.created_at r).

(** Table [after] continues table [before]: the rows of [before] are
    still there, in place, with the columns written at creation, and the
    ones that were confirmed are entirely as they were. *)
Definition continues (before after : list Db.Row) : Prop :=
  (exists added, map row_core after = (map row_core before ++ added)%list)
  /\ (forall i r, nth_error before i = Some r -> Db.row_status r = confirmed ->
                  nth_error after i = Some r).

(** The pay amount of an invoice of the in-memory store, and of a row,
    read in smallest units by [ethers.parseUnits]; [None] when the library
    throws. *)
Definition mem_units (cfg : Config) (inv : Invoice) : option Z :=
  Ethers.parseUnits (payAmount inv) (DECIMALS cfg).

Definition db_units (cfg : Config) (r : Db.Row) : option Z :=
  Ethers.parseUnits (Db.numeric_out (Db.pay_amount r)) (DECIMALS cfg).

(** Every pending invoice of [m] has a readable pay amount, and it is not
    [raw]. *)
Definition mem_others_differ (cfg : Config) (raw : Z)
    (m : list (string * Invoice)) : Prop :=
  Forall (fun e => status (snd e) = pending ->
                   exists p, mem_units cfg (snd e) = Some p /\ p <> raw) m.

(** Every row of [rows] has a readable pay amount, and it is not [raw]. *)
Definition db_others_differ (cfg : Config) (raw : Z) (rows : list Db.Row) : Prop :=
  Forall (fun r => exists p, db_units cfg r = Some p /\ p <> raw) rows.

(* ================================================================= *)
(** * Facts *)

(** ** Digit strings *)

Module DigitsFacts.
Import Digits.

Local Open Scope N_scope.

Lemma digit_val_char (d : N) : d < 10 -> digit_val (digit_char d) = Some d.
Proof.
  intros H.
  assert (E : d = 0 \/ d = 1 \/ d = 2 \/ d = 3 \/ d = 4 \/ d = 5 \/ d = 6
              \/ d = 7 \/ d = 8 \/ d = 9) by lia.
  repeat (destruct E as [E | E]; [subst d; reflexivity |]).
  subst d; reflexivity.
Qed.

Lemma is_digit_char (d : N) : d < 10 -> is_digit (digit_char d) = true.
Proof. intros H. unfold is_digit. now rewrite digit_val_char. Qed.

Lemma value_acc_app (s1 s2 : string) : forall acc,
  value_acc (s1 ++ s2) acc =
  match value_acc s1 acc with
  | Some a => value_acc s2 a
  | None => None
  end.
Proof.
  induction s1 as [| c r IH]; intros acc; simpl.
  - reflexivity.
  - destruct (digit_val c); [apply IH | reflexivity].
Qed.

Lemma value_acc_fixed (k : nat) : forall n acc,
  value_acc (fixed k n) acc = Some (acc * 10 ^ N.of_nat k + n mod 10 ^ N.of_nat k).
Proof.
  induction k as [| k IH]; intros n acc.
  - simpl. rewrite N.mod_1_r. f_equal. lia.
  - cbn [fixed]. rewrite value_acc_app, IH. cbn [value_acc].
    rewrite digit_val_char by (apply N.mod_lt; lia).
    f_equal. rewrite Nat2N.inj_succ, N.pow_succ_r'.
    rewrite (N.Div0.mod_mul_r n 10 (10 ^ N.of_nat k)). lia.
Qed.

Lemma length_fixed (k : nat) : forall n, String.length (fixed k n) = k.
Proof.
  induction k as [| k IH]; intros n; cbn [fixed].
  - reflexivity.
  - assert (L : forall a b, String.length (a ++ b) = (String.length a + String.length b)%nat).
    { induction a; simpl; intros; [reflexivity | now rewrite IHa]. }
    rewrite L, IH. simpl. lia.
Qed.

Lemma length_app (a b : string) :
  String.length (a ++ b) = (String.length a + String.length b)%nat.
Proof. induction a; simpl; [reflexivity | now rewrite IHa]. Qed.

Lemma app_assoc (a b c : string) : ((a ++ b) ++ c = a ++ (b ++ c))%string.
Proof. induction a; simpl; [reflexivity | now rewrite IHa]. Qed.

Lemma all_digits_app (a b : string) :
  all_digits (a ++ b) = all_digits a && all_digits b.
Proof.
  induction a as [| c r IH]; simpl; [reflexivity |].
  now rewrite IH, andb_assoc.
Qed.

Lemma all_digits_fixed (k : nat) : forall n, all_digits (fixed k n) = true.
Proof.
  induction k as [| k IH]; intros n; cbn [fixed]; [reflexivity |].
  rewrite all_digits_app, IH. simpl.
  rewrite is_digit_char by (apply N.mod_lt; lia). reflexivity.
Qed.

Lemma strip_leading_value (s : string) :
  value (strip_leading s) = value s.
Proof.
  unfold value. induction s as [| c r IH]; [reflexivity |].
  destruct r as [| c' r']; [reflexivity |].
  change (strip_leading (String c (String c' r')))
    with (if Ascii.eqb c "0" then strip_leading (String c' r')
          else String c (String c' r')).
  destruct (Ascii.eqb_spec c "0") as [-> | _]; [| reflexivity].
  rewrite IH. reflexivity.
Qed.

Lemma strip_leading_digits (s : string) :
  all_digits s = true -> all_digits (strip_leading s) = true.
Proof.
  induction s as [| c r IH]; [reflexivity |].
  destruct r as [| c' r']; [trivial |].
  change (strip_leading (String c (String c' r')))
    with (if Ascii.eqb c "0" then strip_leading (String c' r')
          else String c (String c' r')).
  destruct (Ascii.eqb c "0"); [| trivial].
  intros H. apply IH. change (is_digit c && all_digits (String c' r') = true) in H.
  now apply andb_prop in H.
Qed.

Lemma strip_leading_nonempty (s : string) :
  s <> EmptyString -> strip_leading s <> EmptyString.
Proof.
  induction s as [| c r IH]; [trivial |].
  destruct r as [| c' r']; [trivial |].
  intros _.
  change (strip_leading (String c (String c' r')))
    with (if Ascii.eqb c "0" then strip_leading (String c' r')
          else String c (String c' r')).
  destruct (Ascii.eqb c "0"); [| discriminate].
  apply IH. discriminate.
Qed.

Lemma pow2_le_pow10 (k : N) : 2 ^ k <= 10 ^ k.
Proof. apply N.pow_le_mono_l. lia. Qed.

Lemma of_N_value (n : N) : value (of_N n) = Some n.
Proof.
  unfold of_N. rewrite strip_leading_value. unfold value.
  rewrite value_acc_fixed. f_equal. rewrite N.mul_0_l, N.add_0_l.
  apply N.mod_small.
  rewrite Nat2N.inj_succ, N2Nat.id, N.pow_succ_r'.
  pose proof (N.size_gt n). pose proof (pow2_le_pow10 (N.size n)). lia.
Qed.

Lemma of_N_digits (n : N) : all_digits (of_N n) = true.
Proof. apply strip_leading_digits, all_digits_fixed. Qed.

Lemma of_N_nonempty (n : N) : of_N n <> EmptyString.
Proof.
  apply strip_leading_nonempty. intros E.
  apply (f_equal String.length) in E. rewrite length_fixed in E. discriminate.
Qed.

Lemma digit_not_dot (c : ascii) : is_digit c = true -> Ascii.eqb c "." = false.
Proof.
  intros H. destruct (Ascii.eqb_spec c "."); [subst c; discriminate | reflexivity].
Qed.

Lemma digit_not_minus (c : ascii) : is_digit c = true -> Ascii.eqb c "-" = false.
Proof.
  intros H. destruct (Ascii.eqb_spec c "-"); [subst c; discriminate | reflexivity].
Qed.

Lemma split_dot_digits (w : string) :
  all_digits w = true -> split_dot w = (w, None).
Proof.
  induction w as [| c r IH]; simpl; [reflexivity |].
  intros H. apply andb_prop in H as [Hc Hr].
  rewrite (digit_not_dot _ Hc), (IH Hr). reflexivity.
Qed.

Lemma split_dot_point (w f : string) :
  all_digits w = true -> split_dot (w ++ String "." f) = (w, Some f).
Proof.
  induction w as [| c r IH]; simpl; [reflexivity |].
  intros H. apply andb_prop in H as [Hc Hr].
  rewrite (digit_not_dot _ Hc), (IH Hr). reflexivity.
Qed.

Lemma strip_trailing_digits (s : string) :
  all_digits s = true -> all_digits (strip_trailing s) = true.
Proof.
  induction s as [| c r IH]; simpl; [reflexivity |].
  intros H. apply andb_prop in H as [Hc Hr]. specialize (IH Hr).
  destruct (strip_trailing r) as [| c' r'].
  - destruct (Ascii.eqb c "0"); simpl; [reflexivity | now rewrite Hc].
  - cbn [all_digits] in *. now rewrite Hc, IH.
Qed.

(** Stripping trailing zeros and padding back to the length gives the
    string again. *)
Lemma strip_trailing_pad (s : string) :
  (strip_trailing s
   ++ zeros (String.length s - String.length (strip_trailing s)))%string = s
  /\ (String.length (strip_trailing s) <= String.length s)%nat.
Proof.
  induction s as [| c r [IH L]]; [split; [reflexivity | simpl; lia] |].
  cbn [strip_trailing].
  destruct (strip_trailing r) as [| c' r'] eqn:E.
  - cbn [String.length append] in IH. rewrite Nat.sub_0_r in IH.
    destruct (Ascii.eqb_spec c "0") as [-> | _].
    + split; [| simpl; lia].
      change (zeros (S (String.length r)) = String "0" r).
      cbn [zeros]. now rewrite IH.
    + split; [| simpl; lia].
      change (String c (zeros (String.length r - 0)) = String c r).
      now rewrite Nat.sub_0_r, IH.
  - split; [| simpl in *; lia].
    change (String c (String c' r' ++ zeros (String.length r - String.length (String c' r')))
            = String c r)%string.
    now rewrite IH.
Qed.

Lemma take_app_length (a b : string) : take (String.length a) (a ++ b) = a.
Proof. induction a as [| c r IH]; simpl; [now destruct b | now rewrite IH]. Qed.

Lemma take_length (a : string) : take (String.length a) a = a.
Proof. induction a as [| c r IH]; simpl; [reflexivity | now rewrite IH]. Qed.

Lemma drop_length (a : string) : drop (String.length a) a = EmptyString.
Proof. induction a as [| c r IH]; simpl; [reflexivity | exact IH]. Qed.

End DigitsFacts.

(** ** Parsing what was formatted *)

Module EthersFacts.
Import Digits DigitsFacts Ethers.

Lemma app_empty_r (s : string) : (s ++ "")%string = s.
Proof. induction s as [| c r IH]; simpl; [reflexivity | now rewrite IH]. Qed.

(** The fractional digits that [format_magnitude] prints, padded back with
    zeros, are the full fixed-width digits. *)
Lemma fraction_padded (d : nat) (x : N) :
  let f := match strip_trailing (fixed (S d) x) with
           | EmptyString => "0"%string
           | f => f
           end in
  all_digits f = true
  /\ (f ++ zeros (S d - String.length f))%string = fixed (S d) x.
Proof.
  pose proof (strip_trailing_pad (fixed (S d) x)) as [P L].
  pose proof (strip_trailing_digits _ (all_digits_fixed (S d) x)) as A.
  rewrite length_fixed in P, L.
  destruct (strip_trailing (fixed (S d) x)) as [| c r]; cbn zeta.
  - split; [reflexivity |].
    rewrite <- P. cbn [String.length append].
    replace (S d - 1)%nat with d by lia.
    replace (S d - 0)%nat with (S d) by lia. reflexivity.
  - split; [exact A | exact P].
Qed.

Lemma parse_format_magnitude (a : N) (decimals : nat) :
  parse_magnitude (format_magnitude a decimals) decimals = Some a.
Proof.
  unfold parse_magnitude, format_magnitude.
  destruct decimals as [| d].
  - rewrite (split_dot_digits _ (of_N_digits a)), of_N_digits. cbn [andb negb].
    destruct (of_N a) as [| c r] eqn:E; [now destruct (of_N_nonempty a) |].
    cbn -[value]. rewrite app_empty_r, <- E. apply of_N_value.
  - set (unit := (10 ^ N.of_nat (S d))%N).
    pose proof (fraction_padded d (a mod unit)%N) as [A P]. cbn zeta in A, P.
    set (f := match strip_trailing (fixed (S d) (a mod unit)) with
              | EmptyString => "0"%string
              | f => f
              end) in *.
    change (of_N (a / unit) ++ "." ++ f)%string
      with (of_N (a / unit) ++ String "." f)%string.
    rewrite (split_dot_point _ f (of_N_digits _)), of_N_digits, A.
    cbn [andb negb].
    replace (String.length (of_N (a / unit)) + String.length f =? 0)%nat
      with false.
    2:{ symmetry. apply Nat.eqb_neq.
        destruct (of_N (a / unit)) eqn:E; [now destruct (of_N_nonempty (a / unit)%N) |].
        simpl. lia. }
    rewrite P.
    replace (drop (S d) (fixed (S d) (a mod unit)%N)) with EmptyString.
    2:{ rewrite <- (length_fixed (S d) (a mod unit)%N) at 1.
        now rewrite drop_length. }
    cbn [all_zeros negb].
    replace (take (S d) (fixed (S d) (a mod unit)%N))
      with (fixed (S d) (a mod unit)%N).
    2:{ rewrite <- (length_fixed (S d) (a mod unit)%N) at 2.
        now rewrite take_length. }
    unfold value. rewrite value_acc_app.
    pose proof (of_N_value (a / unit)%N) as V. unfold value in V. rewrite V.
    rewrite value_acc_fixed. f_equal. fold unit.
    assert (unit <> 0)%N by (apply N.pow_nonzero; lia).
    rewrite N.Div0.mod_mod by trivial.
    rewrite (N.div_mod a unit) at 3 by trivial. lia.
Qed.

Lemma format_magnitude_head (a : N) (decimals : nat) :
  exists c r, format_magnitude a decimals = String c r /\ is_digit c = true.
Proof.
  assert (H : forall n t, exists c r,
             (of_N n ++ t)%string = String c r /\ is_digit c = true).
  { intros n t. pose proof (of_N_digits n) as A.
    destruct (of_N n) as [| c r] eqn:E; [now destruct (of_N_nonempty n) |].
    exists c, (r ++ t)%string. split; [reflexivity |].
    cbn [all_digits] in A. now apply andb_prop in A. }
  unfold format_magnitude. destruct decimals as [| d].
  - destruct (H a EmptyString) as (c & r & E & Hc).
    rewrite app_empty_r in E. eauto.
  - apply H.
Qed.

(** [parseUnits] undoes [formatUnits]. *)
Lemma parse_format (v : Z) (decimals : nat) :
  parseUnits (formatUnits v decimals) decimals = Some v.
Proof.
  unfold formatUnits.
  destruct (Z.ltb_spec v 0) as [Hneg | Hpos].
  - change ("-" ++ ?x)%string with (String "-" x). cbn [parseUnits].
    change (Ascii.eqb "-" "-") with true. cbn iota.
    rewrite parse_format_magnitude. cbn [option_map]. f_equal. lia.
  - cbn [append].
    destruct (format_magnitude_head (Z.to_N (Z.abs v)) decimals) as (c & r & E & Hc).
    pose proof (parse_format_magnitude (Z.to_N (Z.abs v)) decimals) as P.
    rewrite E in *. cbn [parseUnits].
    rewrite (digit_not_minus _ Hc), P. cbn [option_map]. f_equal. lia.
Qed.

End EthersFacts.

(** ** Exact comparison in smallest units *)

Module MatchFacts.
Import Digits DigitsFacts Ethers EthersFacts.

Lemma value_acc_zeros (k : nat) : forall acc,
  value_acc (zeros k) acc = Some (acc * 10 ^ N.of_nat k)%N.
Proof.
  induction k as [| k IH]; intros acc.
  - simpl. f_equal. lia.
  - cbn [zeros value_acc]. change (digit_val "0") with (Some 0%N).
    cbn iota. rewrite IH. f_equal.
    rewrite Nat2N.inj_succ, N.pow_succ_r'. lia.
Qed.

Lemma take_zeros (k : nat) : take k (zeros k) = zeros k.
Proof. induction k as [| k IH]; simpl; [reflexivity | now rewrite IH]. Qed.

Lemma drop_zeros (k : nat) : drop k (zeros k) = EmptyString.
Proof. induction k as [| k IH]; simpl; [reflexivity | exact IH]. Qed.

(** ["10.001"] needs three decimals; with [decimals >= 3] it is 10001
    followed by [decimals - 3] zeros. *)
Lemma parse_10_001 (decimals : nat) :
  parseUnits "10.001" decimals =
  if (3 <=? decimals)%nat then Some (10001 * 10 ^ (Z.of_nat decimals - 3))
  else None.
Proof.
  destruct decimals as [| [| [| d]]]; try reflexivity.
  change (3 <=? S (S (S d)))%nat with true. cbn iota.
  unfold parseUnits. change (Ascii.eqb "1" "-") with false. cbn iota.
  unfold parse_magnitude.
  change (split_dot "10.001") with ("10"%string, Some "001"%string).
  cbn iota beta.
  change (all_digits "10" && all_digits "001") with true.
  change (String.length "10" + String.length "001" =? 0)%nat with false.
  cbn [negb]. cbn iota.
  change (S (S (S d)) - String.length "001")%nat with (d - 0)%nat.
  rewrite Nat.sub_0_r.
  change (drop (S (S (S d))) ("001" ++ zeros d)) with (drop d (zeros d)).
  rewrite drop_zeros. cbn [all_zeros negb]. cbn iota.
  change (take (S (S (S d))) ("001" ++ zeros d))
    with ("001" ++ take d (zeros d))%string.
  rewrite take_zeros.
  change ("10" ++ "001" ++ zeros d)%string with ("10001" ++ zeros d)%string.
  unfold value. rewrite value_acc_app.
  change (value_acc "10001" 0) with (Some 10001%N). cbn iota beta.
  rewrite value_acc_zeros. cbn [option_map]. f_equal.
  replace (Z.of_nat (S (S (S d))) - 3) with (Z.of_nat d) by lia.
  rewrite N2Z.inj_mul, N2Z.inj_pow, nat_N_Z. reflexivity.
Qed.

Lemma amountsEqual_formatted (cfg : Config) (pay : string) (p raw : Z) :
  parseUnits pay (DECIMALS cfg) = Some p ->
  amountsEqual cfg pay (formatUnits raw (DECIMALS cfg)) = Some (p =? raw).
Proof.
  intros H. unfold amountsEqual. now rewrite H, parse_format.
Qed.

Lemma amountsEqual_unreadable (cfg : Config) (pay received : string) :
  parseUnits pay (DECIMALS cfg) = None -> amountsEqual cfg pay received = None.
Proof. intros H. unfold amountsEqual. now rewrite H. Qed.

(** The in-memory loop on a store without a match, up to the first match,
    and up to the first comparison that throws. *)
Lemma settle_misses (cfg : Config) (received : string) (tx : option string) :
  forall m, none_matches cfg received m -> Mem.settle cfg received tx m = Some m.
Proof.
  induction m as [| [k inv] r IH]; intros N; [reflexivity |].
  inversion N as [| ? ? N0 N']; subst. cbn [snd] in N0.
  cbn [Mem.settle]. rewrite (IH N').
  destruct (status inv); cbn [is_pending negb option_map]; [| reflexivity].
  now rewrite (N0 eq_refl).
Qed.

Lemma settle_hits (cfg : Config) (received : string) (tx : option string) :
  forall pre k inv post,
    none_matches cfg received pre ->
    status inv = pending ->
    amountsEqual cfg (payAmount inv) received = Some true ->
    Mem.settle cfg received tx (pre ++ (k, inv) :: post)
    = Some (pre ++ (k, Mem.confirm_invoice inv tx) :: post)%list.
Proof.
  induction pre as [| [k0 inv0] r IH]; intros k inv post N P E; cbn [app Mem.settle].
  - now rewrite P, E.
  - inversion N as [| ? ? N0 N']; subst. cbn [snd] in N0.
    rewrite (IH k inv post N' P E).
    destruct (status inv0); cbn [is_pending negb option_map]; [| reflexivity].
    now rewrite (N0 eq_refl).
Qed.

Lemma settle_throws (cfg : Config) (received : string) (tx : option string) :
  forall pre k inv post,
    none_matches cfg received pre ->
    status inv = pending ->
    amountsEqual cfg (payAmount inv) received = None ->
    Mem.settle cfg received tx (pre ++ (k, inv) :: post) = None.
Proof.
  induction pre as [| [k0 inv0] r IH]; intros k inv post N P E; cbn [app Mem.settle].
  - now rewrite P, E.
  - inversion N as [| ? ? N0 N']; subst. cbn [snd] in N0.
    rewrite (IH k inv post N' P E).
    destruct (status inv0); cbn [is_pending negb]; [| reflexivity].
    now rewrite (N0 eq_refl).
Qed.

Lemma others_differ_none_match (cfg : Config) (raw : Z) (m : list (string * Invoice)) :
  mem_others_differ cfg raw m ->
  none_matches cfg (formatUnits raw (DECIMALS cfg)) m.
Proof.
  intros H. apply (Forall_impl _ (P := fun e => status (snd e) = pending ->
                     exists p, mem_units cfg (snd e) = Some p /\ p <> raw)); [| exact H].
  intros e He P. destruct (He P) as (p & U & D).
  rewrite (amountsEqual_formatted cfg _ p raw U). f_equal. now apply Z.eqb_neq.
Qed.

(** The matching loop of the Postgres variant, likewise. *)
Lemma find_match_misses (cfg : Config) (raw : Z) :
  forall rows,
    db_others_differ cfg raw rows ->
    Db.find_match cfg (formatUnits raw (DECIMALS cfg)) rows = Some None.
Proof.
  induction 1 as [| r rest (p & U & D) F IH]; [reflexivity |].
  cbn [Db.find_match]. rewrite (amountsEqual_formatted cfg _ p raw U).
  apply Z.eqb_neq in D. now rewrite D.
Qed.

Lemma find_match_hits (cfg : Config) (raw : Z) (r : Db.Row) (post : list Db.Row) :
  db_units cfg r = Some raw ->
  forall pre,
    db_others_differ cfg raw pre ->
    Db.find_match cfg (formatUnits raw (DECIMALS cfg)) (pre ++ r :: post)
    = Some (Some (Db.row_id r)).
Proof.
  intros Ur. induction 1 as [| r0 rest (p & U & D) F IH]; cbn [app Db.find_match].
  - now rewrite (amountsEqual_formatted cfg _ raw raw Ur), Z.eqb_refl.
  - rewrite (amountsEqual_formatted cfg _ p raw U).
    apply Z.eqb_neq in D. now rewrite D.
Qed.

Lemma find_match_throws (cfg : Config) (raw : Z) (r : Db.Row) (post : list Db.Row) :
  db_units cfg r = None ->
  forall pre,
    db_others_differ cfg raw pre ->
    Db.find_match cfg (formatUnits raw (DECIMALS cfg)) (pre ++ r :: post) = None.
Proof.
  intros Ur. induction 1 as [| r0 rest (p & U & D) F IH]; cbn [app Db.find_match].
  - now rewrite (amountsEqual_unreadable cfg _ _ Ur).
  - rewrite (amountsEqual_formatted cfg _ p raw U).
    apply Z.eqb_neq in D. now rewrite D.
Qed.

End MatchFacts.

Section Exact_match.
Import MatchFacts.

(** C2 as stated fails on the in-memory variant: the loop stops at the
    first match.  Two requests for 10 leave two pending invoices with pay
    amount 10.001; a transfer of exactly 10.001 tokens has the pay amount
    of both, confirms the first and leaves the second pending. *)
Lemma C2_equal_amount_is_not_matched :
  let cfg := default_config "0xAa11" in
  let s := mem_run 1 cfg [MPost (Some 10%float) "inv-1" 0;
                          MPost (Some 10%float) "inv-2" 1] Mem.init in
  let t := {| timeStamp := 1700000000; to := "0xaa11";
              value := Some 10001000000000000000; hash := Some "0xBEEF" |} in
  let s' := Mem.depositLoop cfg (page [t]) s in
  option_map payAmount (mem_get_invoice "inv-2" s) = Some "10.001"
  /\ mem_status "inv-2" s = Some pending
  /\ option_map (mem_units cfg) (mem_get_invoice "inv-2" s)
     = Some (Some 10001000000000000000)
  /\ mem_status "inv-1" s' = Some confirmed
  /\ mem_status "inv-2" s' = Some pending.
Proof. vm_compute. repeat split; reflexivity. Qed.

(** C2, amended.  The comparison is exact: [amountsEqual] on a pay amount
    and the formatted raw value of a transfer answers whether the pay
    amount, read in smallest units, is that raw value, and throws when the
    pay amount cannot be read.  Hence a transfer of raw value [raw] that
    reaches the matching loop is matched to the first pending invoice, in
    store order, whose pay amount is [raw] in smallest units, and to no
    other; to none when every pending pay amount differs from [raw]; and
    the loop throws at a pending pay amount that cannot be read before any
    match.  This holds for the loop and the iteration of both variants.
    The pay amount ["10.001"] reads as 10001 followed by [decimals - 3]
    zeros, that is 10.001 x 10^decimals, when [decimals >= 3]. *)
Theorem C2_first_equal_pending_invoice_is_matched (cfg : Config) (raw : Z) :
  let received := Ethers.formatUnits raw (DECIMALS cfg) in
  formatTokenAmount cfg (Some raw) = Some received
  /\ (forall pay p, Ethers.parseUnits pay (DECIMALS cfg) = Some p ->
                    amountsEqual cfg pay received = Some (p =? raw))
  /\ (forall pay, Ethers.parseUnits pay (DECIMALS cfg) = None ->
                  amountsEqual cfg pay received = None)
  /\ (forall tx pre k inv post,
        mem_others_differ cfg raw pre ->
        status inv = pending -> mem_units cfg inv = Some raw ->
        Mem.settle cfg received tx (pre ++ (k, inv) :: post)
        = Some (pre ++ (k, Mem.confirm_invoice inv tx) :: post)%list
        /\ status (Mem.confirm_invoice inv tx) = confirmed
        /\ txHash (Mem.confirm_invoice inv tx) = tx
        /\ payAmount (Mem.confirm_invoice inv tx) = payAmount inv)
  /\ (forall tx m, mem_others_differ cfg raw m ->
                   Mem.settle cfg received tx m = Some m)
  /\ (forall tx pre k inv post,
        mem_others_differ cfg raw pre ->
        status inv = pending -> mem_units cfg inv = None ->
        Mem.settle cfg received tx (pre ++ (k, inv) :: post) = None)
  /\ (forall t s pre k inv post,
        timeStamp t <> 0 -> Mem.lastProcessedTime s < timeStamp t ->
        toLowerCase (to t) = toLowerCase (wallet_address cfg) ->
        value t = Some raw ->
        Mem.invoices s = (pre ++ (k, inv) :: post)%list ->
        mem_others_differ cfg raw pre ->
        status inv = pending -> mem_units cfg inv = Some raw ->
        Mem.step cfg t s
        = ({| Mem.invoices := (pre ++ (k, Mem.confirm_invoice inv (hash t)) :: post)%list;
              Mem.lastProcessedTime := Mem.lastProcessedTime s;
              Mem.log := (Mem.log s
                          ++ [LogIncoming received (hash t) (timeStamp t)])%list |},
           false))
  /\ (forall pre r post,
        db_others_differ cfg raw pre -> db_units cfg r = Some raw ->
        Db.find_match cfg received (pre ++ r :: post) = Some (Some (Db.row_id r)))
  /\ (forall rows, db_others_differ cfg raw rows ->
                   Db.find_match cfg received rows = Some None)
  /\ (forall pre r post,
        db_others_differ cfg raw pre -> db_units cfg r = None ->
        Db.find_match cfg received (pre ++ r :: post) = None)
  /\ (forall now t s pre r post,
        toLowerCase (hash_text t) <> "" ->
        toLowerCase (to t) = toLowerCase (wallet_address cfg) ->
        Db.is_processed (toLowerCase (hash_text t)) (Db.processed_txs s) = false ->
        value t = Some raw ->
        Db.select_pending (Db.invoices s) = (pre ++ r :: post)%list ->
        db_others_differ cfg raw pre -> db_units cfg r = Some raw ->
        Db.step cfg now t s
        = ({| Db.invoices := Db.confirm (hash_text t) (Db.row_id r) (Db.invoices s);
              Db.processed_txs :=
                Db.mark_processed (toLowerCase (hash_text t)) now (Db.processed_txs s);
              Db.log := (Db.log s
                         ++ [LogConfirmed (Db.row_id r) received (hash_text t)])%list |},
           false))
  /\ (forall p, Ethers.parseUnits "10.001" (DECIMALS cfg) = Some p ->
                (3 <= DECIMALS cfg)%nat
                /\ p = 10001 * 10 ^ (Z.of_nat (DECIMALS cfg) - 3))
  /\ ((3 <= DECIMALS cfg)%nat ->
      Ethers.parseUnits "10.001" (DECIMALS cfg)
      = Some (10001 * 10 ^ (Z.of_nat (DECIMALS cfg) - 3))).
Proof.
  intros received.
  assert (Hit : forall tx pre k inv post,
             mem_others_differ cfg raw pre ->
             status inv = pending -> mem_units cfg inv = Some raw ->
             Mem.settle cfg received tx (pre ++ (k, inv) :: post)
             = Some (pre ++ (k, Mem.confirm_invoice inv tx) :: post)%list).
  { intros tx pre k inv post O P U. apply settle_hits; trivial.
    - now apply others_differ_none_match.
    - unfold received. rewrite (amountsEqual_formatted cfg _ raw raw U).
      now rewrite Z.eqb_refl. }
  split; [reflexivity |].
  split; [intros pay p; apply amountsEqual_formatted |].
  split; [intros pay; apply amountsEqual_unreadable |].
  split; [intros tx pre k inv post O P U; repeat split; now apply Hit |].
  split; [intros tx m O; apply settle_misses; now apply others_differ_none_match |].
  split.
  { intros tx pre k inv post O P U. apply settle_throws; trivial.
    - now apply others_differ_none_match.
    - now apply amountsEqual_unreadable. }
  split.
  { intros t s pre k inv post T0 T1 A V I O P U. unfold Mem.step.
    apply Z.eqb_neq in T0. rewrite T0.
    destruct (Z.leb_spec (timeStamp t) (Mem.lastProcessedTime s)); [lia |].
    rewrite A, String.eqb_refl, V. cbn [negb formatTokenAmount].
    cbn [Mem.add_log Mem.invoices Mem.lastProcessedTime Mem.log].
    fold received. rewrite I, (Hit (hash t) pre k inv post O P U). reflexivity. }
  split; [intros pre r post O U; now apply find_match_hits |].
  split; [intros rows O; now apply find_match_misses |].
  split; [intros pre r post O U; now apply find_match_throws |].
  split.
  { intros now t s pre r post Hh A Q V I O U.
    unfold Db.step, Db.step_with. cbn [Db.rejects].
    apply String.eqb_neq in Hh. rewrite Hh, A, String.eqb_refl, Q, V.
    cbn [negb formatTokenAmount].
    rewrite I, (find_match_hits cfg raw r post U pre O). reflexivity. }
  split.
  - intros p H. rewrite parse_10_001 in H.
    destruct (Nat.leb_spec 3 (DECIMALS cfg)); [| discriminate].
    split; [assumption | congruence].
  - intros H. rewrite parse_10_001. apply Nat.leb_le in H. now rewrite H.
Qed.

Lemma C2_first_equal_pending_invoice_is_matched_witness :
  let cfg := default_config "0xAa11" in
  let inv := fun k pay =>
    (k, {| id := k; requestedAmount := "10.000"; tag := "0.001";
           payAmount := pay; status := pending; toAddress := "0xAa11";
           createdAt := 0; txHash := None |}) in
  Mem.settle cfg (Ethers.formatUnits 10001000000000000000 18) (Some "0xBEEF")
    ([inv "inv-0" "10.002"] ++ inv "inv-1" "10.001" :: [inv "inv-2" "10.001"])
  = Some ([inv "inv-0" "10.002"]
          ++ ("inv-1", Mem.confirm_invoice (snd (inv "inv-1" "10.001")) (Some "0xBEEF"))
          :: [inv "inv-2" "10.001"])%list.
Proof.
  intros cfg inv.
  pose proof (C2_first_equal_pending_invoice_is_matched cfg 10001000000000000000)
    as (_ & _ & _ & H & _).
  refine (proj1 (H (Some "0xBEEF") [inv "inv-0" "10.002"] "inv-1"
                   (snd (inv "inv-1" "10.001")) [inv "inv-2" "10.001"] _ eq_refl _)).
  - constructor; [| constructor]. intros _. exists 10002000000000000000.
    split; [vm_compute; reflexivity | discriminate].
  - vm_compute. reflexivity.
Defined.

End Exact_match.

(** ** The conditional confirmation *)

Module ConfirmFacts.

Lemma confirm_twice (tx1 tx2 target : string) (rows : list Db.Row) :
  Db.confirm tx2 target (Db.confirm tx1 target rows) = Db.confirm tx1 target rows.
Proof.
  unfold Db.confirm. rewrite map_map. apply map_ext. intros r.
  destruct (String.eqb (Db.row_id r) target && is_pending (Db.row_status r)) eqn:E.
  - cbn. now rewrite andb_false_r.
  - now rewrite E.
Qed.

Lemma confirm_nth (tx target : string) (rows : list Db.Row) (i : nat) (r : Db.Row) :
  nth_error rows i = Some r ->
  nth_error (Db.confirm tx target rows) i =
  Some (if String.eqb (Db.row_id r) target && is_pending (Db.row_status r)
        then {| Db.row_id := Db.row_id r;
                Db.requested_amount := Db.requested_amount r;
                Db.row_tag := Db.row_tag r; Db.pay_amount := Db.pay_amount r;
                Db.row_status := confirmed; Db.to_address := Db.to_address r;
                Db.created_at := Db.created_at r; Db.tx_hash := Some tx |}
        else r).
Proof.
  intros H. unfold Db.confirm. rewrite nth_error_map, H. reflexivity.
Qed.

(** The in-memory loop leaves an invoice that is not pending as it is. *)
Lemma settle_keeps_confirmed (cfg : Config) (received : string) (tx : option string) :
  forall m m' i k inv,
    Mem.settle cfg received tx m = Some m' ->
    nth_error m i = Some (k, inv) ->
    status inv = confirmed ->
    nth_error m' i = Some (k, inv).
Proof.
  induction m as [| [k0 inv0] r IH]; intros m' i k inv Hs Hn Hc.
  - destruct i; discriminate.
  - cbn [Mem.settle] in Hs.
    destruct (is_pending (status inv0)) eqn:P; cbn [negb] in Hs.
    + destruct (amountsEqual cfg (payAmount inv0) received) as [[|] |]; try discriminate.
      * injection Hs as <-. destruct i as [| i]; cbn in *; [| exact Hn].
        injection Hn as -> ->. rewrite Hc in P. discriminate.
      * destruct (Mem.settle cfg received tx r) as [r' |] eqn:Er; [| discriminate].
        injection Hs as <-. destruct i as [| i]; cbn in *; [exact Hn |].
        now apply (IH r' i k inv).
    + destruct (Mem.settle cfg received tx r) as [r' |] eqn:Er; [| discriminate].
      injection Hs as <-. destruct i as [| i]; cbn in *; [exact Hn |].
      now apply (IH r' i k inv).
Qed.

End ConfirmFacts.

(** C5.  The [UPDATE ... WHERE id=$2 AND status='pending'] of the
    Postgres variant changes a row only if it is the pending row of that
    id, which becomes confirmed with the given hash; a row that is not
    pending stays as it is; and a second call, with any hash, changes
    nothing more.  In the in-memory variant the loop confirms the first
    pending invoice with the received amount, setting its status to
    confirmed and its [txHash] to the hash of the transfer; it skips every
    invoice that is not pending, so whatever transfer comes next, with any
    amount and hash, that invoice keeps the status and the [txHash] the
    first one gave it. *)
Theorem C5_confirm_is_idempotent
    (cfg : Config) (tx1 tx2 target : string) (rows : list Db.Row) :
  Db.confirm tx2 target (Db.confirm tx1 target rows) = Db.confirm tx1 target rows
  /\ (forall i r, nth_error rows i = Some r ->
        Db.row_status r = confirmed ->
        nth_error (Db.confirm tx1 target rows) i = Some r)
  /\ (forall i r, nth_error rows i = Some r ->
        Db.row_id r = target -> Db.row_status r = pending ->
        exists r', nth_error (Db.confirm tx1 target rows) i = Some r'
          /\ Db.row_status r' = confirmed /\ Db.tx_hash r' = Some tx1
          /\ nth_error (Db.confirm tx2 target (Db.confirm tx1 target rows)) i = Some r')
  /\ (forall received1 received2 mtx1 mtx2 m m1 m2 i k inv,
        Mem.settle cfg received1 mtx1 m = Some m1 ->
        Mem.settle cfg received2 mtx2 m1 = Some m2 ->
        nth_error m1 i = Some (k, inv) -> status inv = confirmed ->
        nth_error m2 i = Some (k, inv))
  /\ (forall received1 received2 mtx1 mtx2 pre k inv post,
        none_matches cfg received1 pre ->
        status inv = pending ->
        amountsEqual cfg (payAmount inv) received1 = Some true ->
        exists inv1,
          Mem.settle cfg received1 mtx1 (pre ++ (k, inv) :: post)
          = Some (pre ++ (k, inv1) :: post)%list
          /\ status inv1 = confirmed /\ txHash inv1 = mtx1
          /\ id inv1 = id inv /\ payAmount inv1 = payAmount inv
          /\ forall m2,
               Mem.settle cfg received2 mtx2 (pre ++ (k, inv1) :: post) = Some m2 ->
               nth_error m2 (List.length pre) = Some (k, inv1)).
Proof.
  split; [apply ConfirmFacts.confirm_twice |]. split; [| split; [| split]].
  - intros i r Hn Hc. rewrite (ConfirmFacts.confirm_nth _ _ _ _ _ Hn), Hc.
    now rewrite andb_false_r.
  - intros i r Hn Hid Hp. eexists. split.
    + rewrite (ConfirmFacts.confirm_nth _ _ _ _ _ Hn), Hid, Hp, String.eqb_refl.
      reflexivity.
    + split; [reflexivity |]. split; [reflexivity |].
      rewrite ConfirmFacts.confirm_twice.
      rewrite (ConfirmFacts.confirm_nth _ _ _ _ _ Hn), Hid, Hp, String.eqb_refl.
      reflexivity.
  - intros received1 received2 mtx1 mtx2 m m1 m2 i k inv _ H2 Hn Hc.
    exact (ConfirmFacts.settle_keeps_confirmed cfg received2 mtx2 m1 m2 i k inv H2 Hn Hc).
  - intros received1 received2 mtx1 mtx2 pre k inv post N P E.
    exists (Mem.confirm_invoice inv mtx1).
    split; [now apply MatchFacts.settle_hits |].
    repeat split. intros m2 H2.
    apply (ConfirmFacts.settle_keeps_confirmed cfg received2 mtx2 _ m2 _ k _ H2);
      [| reflexivity].
    now rewrite nth_error_app2, Nat.sub_diag by lia.
Qed.

Lemma C5_confirm_is_idempotent_witness :
  let cfg := default_config "0xAa11" in
  let inv := {| id := "inv-1"; requestedAmount := "10.000"; tag := "0.001";
                payAmount := "10.001"; status := pending; toAddress := "0xAa11";
                createdAt := 0; txHash := None |} in
  exists inv1,
    Mem.settle cfg "10.001" (Some "0xAAAA") ([] ++ ("inv-1", inv) :: [])
    = Some ([] ++ ("inv-1", inv1) :: [])%list
    /\ status inv1 = confirmed /\ txHash inv1 = Some "0xAAAA"
    /\ id inv1 = id inv /\ payAmount inv1 = payAmount inv
    /\ forall m2,
         Mem.settle cfg "10.001" (Some "0xBBBB") ([] ++ ("inv-1", inv1) :: []) = Some m2 ->
         nth_error m2 (List.length (@nil (string * Invoice))) = Some ("inv-1", inv1).
Proof.
  intros cfg inv.
  exact (proj2 (proj2 (proj2 (proj2
           (C5_confirm_is_idempotent cfg "0xAAAA" "0xBBBB" "inv-1" []))))
           "10.001" "10.001" (Some "0xAAAA") (Some "0xBBBB") [] "inv-1" inv []
           (Forall_nil _) eq_refl ltac:(vm_compute; reflexivity)).
Defined.

(** ** Deposits that match no invoice *)

Module FrameFacts.

Lemma settle_no_match (cfg : Config) (received : string) (tx : option string) :
  forall m,
    (forall k inv, In (k, inv) m -> status inv = pending ->
                   amountsEqual cfg (payAmount inv) received <> Some true) ->
    Mem.settle cfg received tx m = Some m \/ Mem.settle cfg received tx m = None.
Proof.
  induction m as [| [k inv] r IH]; intros H; [now left |].
  cbn [Mem.settle].
  assert (Hr : Mem.settle cfg received tx r = Some r
               \/ Mem.settle cfg received tx r = None).
  { apply IH. intros k' inv' Hin Hp. apply (H k' inv'); [now right | exact Hp]. }
  destruct (status inv) eqn:P; cbn [is_pending negb].
  - specialize (H k inv (or_introl eq_refl) P).
    destruct (amountsEqual cfg (payAmount inv) received) as [[|] |].
    + now destruct H.
    + destruct Hr as [-> | ->]; [now left | now right].
    + now right.
  - destruct Hr as [-> | ->]; [now left | now right].
Qed.

Lemma find_match_no_match (cfg : Config) (received : string) :
  forall rows,
    (forall r, In r rows ->
               amountsEqual cfg (Db.numeric_out (Db.pay_amount r)) received <> Some true) ->
    Db.find_match cfg received rows = Some None
    \/ Db.find_match cfg received rows = None.
Proof.
  induction rows as [| r rest IH]; intros H; [now left |].
  cbn [Db.find_match].
  pose proof (H r (or_introl eq_refl)) as Hr.
  destruct (amountsEqual cfg (Db.numeric_out (Db.pay_amount r)) received) as [[|] |].
  - now destruct Hr.
  - apply IH. intros r' Hin. apply (H r'). now right.
  - now right.
Qed.

Lemma in_select_pending (rows : list Db.Row) (r : Db.Row) :
  In r (Db.select_pending rows) <-> In r rows /\ Db.row_status r = pending.
Proof.
  unfold Db.select_pending. rewrite filter_In.
  destruct (Db.row_status r); cbn; intuition congruence.
Qed.

End FrameFacts.

(** C8.  When the received amount of a transfer equals the pay amount of
    no pending invoice, one iteration of [depositLoop] on it leaves the
    invoices as they were, in both variants.  The in-memory variant at most
    prints its "Incoming USDT" line; the Postgres variant at most prints
    its "no invoice match" line (and records the hash in its ledger). *)
Theorem C8_unmatched_deposit_changes_no_invoice
    (cfg : Config) (now : Z) (t : Transfer) (received : string)
    (sm : Mem.State) (sd : Db.State) :
  formatTokenAmount cfg (value t) = Some received ->
  (forall k inv, In (k, inv) (Mem.invoices sm) -> status inv = pending ->
                 amountsEqual cfg (payAmount inv) received <> Some true) ->
  (forall r, In r (Db.invoices sd) -> Db.row_status r = pending ->
             amountsEqual cfg (Db.numeric_out (Db.pay_amount r)) received <> Some true) ->
  Mem.invoices (fst (Mem.step cfg t sm)) = Mem.invoices sm
  /\ (Mem.log (fst (Mem.step cfg t sm)) = Mem.log sm
      \/ Mem.log (fst (Mem.step cfg t sm))
         = (Mem.log sm ++ [LogIncoming received (hash t) (timeStamp t)])%list)
  /\ Db.invoices (fst (Db.step cfg now t sd)) = Db.invoices sd
  /\ (Db.log (fst (Db.step cfg now t sd)) = Db.log sd
      \/ Db.log (fst (Db.step cfg now t sd))
         = (Db.log sd ++ [LogNoMatch received (toLowerCase (hash_text t))])%list).
Proof.
  intros Hf Hm Hd.
  assert (M : Mem.invoices (fst (Mem.step cfg t sm)) = Mem.invoices sm
              /\ (Mem.log (fst (Mem.step cfg t sm)) = Mem.log sm
                  \/ Mem.log (fst (Mem.step cfg t sm))
                     = (Mem.log sm ++ [LogIncoming received (hash t) (timeStamp t)])%list)).
  { unfold Mem.step. rewrite Hf.
    destruct (timeStamp t =? 0); [now split; [| left] |].
    destruct (timeStamp t <=? Mem.lastProcessedTime sm); [now split; [| left] |].
    destruct (negb _); [now split; [| left] |].
    cbn [Mem.add_log Mem.invoices Mem.lastProcessedTime Mem.log].
    destruct (FrameFacts.settle_no_match cfg received (hash t) _ Hm) as [-> | ->];
      cbn; split; auto. }
  assert (D : Db.invoices (fst (Db.step cfg now t sd)) = Db.invoices sd
              /\ (Db.log (fst (Db.step cfg now t sd)) = Db.log sd
                  \/ Db.log (fst (Db.step cfg now t sd))
                     = (Db.log sd ++ [LogNoMatch received (toLowerCase (hash_text t))])%list)).
  { unfold Db.step, Db.step_with; cbn [Db.rejects]. rewrite Hf.
    destruct (String.eqb (toLowerCase (hash_text t)) ""); [now split; [| left] |].
    destruct (negb _); [now split; [| left] |].
    destruct (Db.is_processed _ _); [now split; [| left] |].
    destruct (FrameFacts.find_match_no_match cfg received
                (Db.select_pending (Db.invoices sd))) as [-> | ->].
    - intros r Hin. apply FrameFacts.in_select_pending in Hin as [Hin Hp].
      now apply Hd.
    - cbn. split; auto.
    - cbn. split; auto. }
  tauto.
Qed.

Lemma C8_unmatched_deposit_changes_no_invoice_witness :
  let cfg := default_config "0xAa11" in
  let sm := snd (Mem.post_invoice 1 cfg (Some 10%float) "inv-1" 0 Mem.init) in
  let sd := snd (Db.post_invoice 1 cfg (Some 10%float) "inv-1" 0 Db.init) in
  let t := {| timeStamp := 1700000000; to := "0xaA11";
              value := Some 5000000000000000000; hash := Some "0xBEEF" |} in
  mem_pending_payAmounts sm = ["10.001"]
  /\ Mem.invoices (fst (Mem.step cfg t sm)) = Mem.invoices sm
  /\ Mem.log (fst (Mem.step cfg t sm)) = [LogIncoming "5.0" (Some "0xBEEF") 1700000000]
  /\ Db.invoices (fst (Db.step cfg 50 t sd)) = Db.invoices sd
  /\ Db.log (fst (Db.step cfg 50 t sd)) = [LogNoMatch "5.0" "0xbeef"].
Proof.
  intros cfg sm sd t.
  assert (Hf : formatTokenAmount cfg (value t) = Some "5.0") by (vm_compute; reflexivity).
  assert (Hm : forall k inv, In (k, inv) (Mem.invoices sm) -> status inv = pending ->
                 amountsEqual cfg (payAmount inv) "5.0" <> Some true).
  { intros k inv Hin _. vm_compute in Hin. destruct Hin as [E | []].
    injection E as <- <-. vm_compute. discriminate. }
  assert (Hd : forall r, In r (Db.invoices sd) -> Db.row_status r = pending ->
                 amountsEqual cfg (Db.numeric_out (Db.pay_amount r)) "5.0" <> Some true).
  { intros r Hin _. vm_compute in Hin. destruct Hin as [<- | []].
    vm_compute. discriminate. }
  pose proof (C8_unmatched_deposit_changes_no_invoice cfg 50 t "5.0" sm sd
                Hf Hm Hd) as (M & _ & D & _).
  split; [vm_compute; reflexivity |]. split; [exact M |].
  split; [vm_compute; reflexivity |]. split; [exact D |].
  vm_compute; reflexivity.
Defined.

(** ** Soft errors of the explorer *)

(** C9 as stated fails on the Postgres variant: a cycle on a soft error
    still prunes the ledger.  Here the explorer answers a rate-limit
    message at a time when the one ledger entry is 31 days old. *)
Lemma C9_soft_error_cycle_prunes_ledger :
  let cfg := default_config "0xAa11" in
  let s := {| Db.invoices := []; Db.processed_txs := [("0xbeef", 0)];
              Db.log := [] |} in
  let data := {| fd_status := Some "0";
                 fd_result := ResultText "Max rate limit reached" |} in
  fetchIncomingUsdtTransfers (Some data) = []
  /\ Db.processed_txs (Db.depositLoop cfg (31 * 24 * 3600) (Some (Some data)) s) = []
  /\ Db.processed_txs (Db.depositLoop cfg (31 * 24 * 3600) (Some (Some data)) s)
     <> Db.processed_txs s.
Proof.
  intros cfg s data. split; [reflexivity |]. split; [reflexivity |].
  vm_compute. discriminate.
Qed.

(** C9, amended.  An answer without a [result] field, or whose [status] is
    not the string ["1"], is fetched as the empty list.  The in-memory
    cycle then leaves its whole state as it was; the Postgres cycle leaves
    the invoices and the log as they were and records no hash: its ledger
    only goes through the end-of-cycle prune. *)
Theorem C9_soft_error_is_an_empty_page
    (cfg : Config) (now : Z) (data : FeedData) (sm : Mem.State) (sd : Db.State) :
  fd_result data = ResultAbsent \/ fd_status data <> Some "1" ->
  fetchIncomingUsdtTransfers (Some data) = []
  /\ Mem.depositLoop cfg (Some (Some data)) sm = sm
  /\ Db.invoices (Db.depositLoop cfg now (Some (Some data)) sd) = Db.invoices sd
  /\ Db.log (Db.depositLoop cfg now (Some (Some data)) sd) = Db.log sd
  /\ Db.processed_txs (Db.depositLoop cfg now (Some (Some data)) sd)
     = Db.prune now (Db.processed_txs sd).
Proof.
  intros H.
  assert (E : fetchIncomingUsdtTransfers (Some data) = []).
  { unfold fetchIncomingUsdtTransfers. destruct H as [-> | H]; [reflexivity |].
    destruct (result_falsy (fd_result data)); [reflexivity |].
    destruct (fd_status data) as [st |]; [| reflexivity].
    destruct (String.eqb_spec st "1") as [-> | N]; [now destruct H |].
    destruct st as [| c r]; [reflexivity |].
    destruct c as [[] [] [] [] [] [] [] []]; try reflexivity.
    destruct r; [now destruct N | reflexivity]. }
  unfold Mem.depositLoop, Db.depositLoop. rewrite E. cbn.
  repeat split; reflexivity.
Qed.

Lemma C9_soft_error_is_an_empty_page_witness :
  let cfg := default_config "0xAa11" in
  let data := {| fd_status := Some "0";
                 fd_result := ResultText "No transactions found" |} in
  fetchIncomingUsdtTransfers (Some data) = []
  /\ Mem.depositLoop cfg (Some (Some data)) Mem.init = Mem.init.
Proof.
  intros cfg data.
  assert (H : fd_result data = ResultAbsent \/ fd_status data <> Some "1")
    by (right; discriminate).
  pose proof (C9_soft_error_is_an_empty_page cfg 0 data Mem.init Db.init H)
    as (F & M & _).
  split; [exact F | exact M].
Defined.

(** ** The ledger of processed transactions *)

Module DedupFacts.

Lemma lower_ascii_idem (c : ascii) : lower_ascii (lower_ascii c) = lower_ascii c.
Proof. destruct c as [[] [] [] [] [] [] [] []]; reflexivity. Qed.

Lemma toLowerCase_idem (s : string) : toLowerCase (toLowerCase s) = toLowerCase s.
Proof.
  induction s as [| c r IH]; simpl; [reflexivity |].
  now rewrite lower_ascii_idem, IH.
Qed.

Lemma is_processed_In (h : string) (seen : Z) (l : list (string * Z)) :
  In (h, seen) l -> Db.is_processed h l = true.
Proof.
  intros H. unfold Db.is_processed. apply existsb_exists.
  exists (h, seen). split; [exact H | apply String.eqb_refl].
Qed.




Lemma step_outcomes (cfg : Config) (now : Z) (t : Transfer) (s : Db.State) :
  step_outcome cfg now t s (Db.step cfg now t s).
Proof.
  unfold Db.step, Db.step_with; cbn [Db.rejects].
  destruct (String.eqb (toLowerCase (hash_text t)) ""); [constructor |].
  destruct (negb _); [constructor |].
  destruct (Db.is_processed _ _) eqn:P; [constructor |].
  destruct (formatTokenAmount cfg (value t)) as [received |]; [| constructor].
  destruct (Db.find_match cfg received _) as [[matched |] |].
  - now apply step_confirms.
  - now apply step_logs_no_match.
  - constructor.
Qed.





Section One_transaction.

Variables (cfg : Config) (now : Z) (h : string).






End One_transaction.

End DedupFacts.


(** ** A recorded transaction confirms nothing *)

Module RecordedFacts.
Import DedupFacts.



Section Retained.

Variables (cfg : Config) (h : string) (seen : Z).








End Retained.

End RecordedFacts.







(** ** The high-water mark against the ledger *)

(** C6.  One pending invoice for 10, pay amount 10.001, in both stores.
    The explorer first reports transfer [a] (time 1700000200); from the
    second cycle on it also reports [late], a transfer of 10.001 tokens
    with the earlier time 1700000100 that it had not shown before.  The
    in-memory variant has moved its mark to 1700000200 by then: it skips
    [late] in every cycle and the invoice stays pending, however many
    cycles run.  The Postgres variant confirms the invoice with [late] in
    the second cycle. *)
Theorem C6_high_water_mark_misses_a_late_transfer :
  let cfg := default_config "0xAa11" in
  let a := {| timeStamp := 1700000200; to := "0xaa11";
              value := Some 7000000000000000000; hash := Some "0xAAAA" |} in
  let late := {| timeStamp := 1700000100; to := "0xaa11";
                 value := Some 10001000000000000000; hash := Some "0xBBBB" |} in
  let pages := fun i : nat => match i with O => [a] | S _ => [a; late] end in
  let sm := snd (Mem.post_invoice 1 cfg (Some 10%float) "inv-1" 0 Mem.init) in
  let sd := snd (Db.post_invoice 1 cfg (Some 10%float) "inv-1" 0 Db.init) in
  let sd2 := db_run 1 cfg [(12, Poll (page (pages 0%nat)));
                           (24, Poll (page (pages 1%nat)))] sd in
  mem_pending_payAmounts sm = ["10.001"]
  /\ ~ In late (pages 0%nat)
  /\ timeStamp late <= Mem.lastProcessedTime (mem_poll cfg pages 1 sm)
  /\ (forall n, mem_status "inv-1" (mem_poll cfg pages n sm) = Some pending)
  /\ (forall n, ~ In (LogIncoming "10.001" (Some "0xBBBB") 1700000100)
                     (Mem.log (mem_poll cfg pages n sm)))
  /\ option_map Db.row_status (db_row "inv-1" sd2) = Some confirmed
  /\ option_map Db.tx_hash (db_row "inv-1" sd2) = Some (Some "0xBBBB").
Proof.
  intros cfg a late pages sm sd sd2.
  assert (Fix : forall n, mem_poll cfg pages (S n) sm = mem_poll cfg pages 1 sm).
  { induction n as [| n IH]; [reflexivity |].
    change (mem_poll cfg pages (S (S n)) sm)
      with (Mem.depositLoop cfg (page [a; late]) (mem_poll cfg pages (S n) sm)).
    rewrite IH. vm_compute. reflexivity. }
  split; [vm_compute; reflexivity |].
  split; [intros [E | []]; discriminate E |].
  split; [vm_compute; discriminate |].
  split; [| split].
  - intros [| n]; [vm_compute; reflexivity |]. rewrite Fix. vm_compute. reflexivity.
  - intros [| n]; [vm_compute; tauto |]. rewrite Fix. vm_compute.
    intros [E | []]. discriminate E.
  - split; vm_compute; reflexivity.
Qed.

(** ** The allocator of the in-memory variant *)

(** C1, on the code.  Two requests for the amount 10 on the empty
    in-memory store, with the default grid, both succeed, and the two
    pending invoices have the same pay amount 10.001: [allocateTag] fills
    [used] with the tag strings of the invoices and looks numbers up in
    it. *)
Theorem C1_mem_two_pending_invoices_share_a_payAmount (fuel : nat) :
  let cfg := default_config "0xAa11" in
  let s1 := snd (Mem.post_invoice (S fuel) cfg (Some 10%float) "inv-1" 0 Mem.init) in
  let s2 := snd (Mem.post_invoice (S fuel) cfg (Some 10%float) "inv-2" 1 s1) in
  mem_pending_payAmounts s2 = ["10.001"; "10.001"]
  /\ ~ NoDup (mem_pending_payAmounts s2).
Proof.
  intros cfg s1 s2.
  assert (E : mem_pending_payAmounts s2 = ["10.001"; "10.001"])
    by (vm_compute; reflexivity).
  split; [exact E |]. rewrite E. intros N. inversion N as [| ? ? Hn _].
  apply Hn. now left.
Qed.

(** C4, on the code.  With the default grid and one pending invoice of tag
    0.001, [allocateTag] returns 0.001 again; with pending tags 0.001 and
    0.002 it returns 0.001 as well, where [allocateTagFromDb] returns
    0.003 on the same tags. *)
Theorem C4_mem_allocator_returns_a_used_tag (fuel : nat) :
  let cfg := default_config "0xAa11" in
  let inv := fun k tg pay =>
    (k, {| id := k; requestedAmount := "10.000"; tag := tg; payAmount := pay;
           status := pending; toAddress := "0xAa11"; createdAt := 0;
           txHash := None |}) in
  let sm1 := snd (Mem.post_invoice (S fuel) cfg (Some 10%float) "inv-1" 0 Mem.init) in
  let sm2 := {| Mem.invoices := [inv "inv-1" "0.001" "10.001";
                                 inv "inv-2" "0.002" "10.002"];
                Mem.lastProcessedTime := 0; Mem.log := [] |} in
  let sd1 := snd (Db.post_invoice 3 cfg (Some 10%float) "inv-1" 0 Db.init) in
  let sd2 := snd (Db.post_invoice 3 cfg (Some 10%float) "inv-2" 1 sd1) in
  Mem.used_tags (Mem.invoices sm1) = [JStr "0.001"]
  /\ Mem.allocateTag (S fuel) cfg sm1 = Some (Some 0.001%float)
  /\ Mem.used_tags (Mem.invoices sm2) = [JStr "0.001"; JStr "0.002"]
  /\ Mem.allocateTag (S fuel) cfg sm2 = Some (Some 0.001%float)
  /\ map Db.row_tag (Db.select_pending (Db.invoices sd2))
     = [1000000000000000; 2000000000000000]
  /\ Db.allocateTagFromDb 3 cfg sd2 = Some (Some 0.003%float).
Proof. intros. vm_compute. repeat split; reflexivity. Qed.

(** C7, on the code.  With a grid of the single slot 0.001, held by a
    pending invoice, a second request is answered 200 with the tag 0.001
    again.  With the grid 0.001, 0.002, 0.003 and three pending invoices
    holding the three slots, the in-memory route answers 200 with the tag
    0.001, where the Postgres route answers 503 and stores nothing. *)
Theorem C7_mem_full_grid_still_allocates (fuel : nat) :
  let cfg1 := {| TAG_STEP := 0.001; TAG_MAX := 0.001; DECIMALS := 18;
                 wallet_address := "0xAa11" |} in
  let cfg3 := {| TAG_STEP := 0.001; TAG_MAX := 0.003; DECIMALS := 18;
                 wallet_address := "0xAa11" |} in
  let inv := fun k tg pay =>
    {| id := k; requestedAmount := "10.000"; tag := tg; payAmount := pay;
       status := pending; toAddress := "0xAa11"; createdAt := 0;
       txHash := None |} in
  let s1 := snd (Mem.post_invoice (S fuel) cfg1 (Some 10%float) "inv-1" 0 Mem.init) in
  let full := {| Mem.invoices := [("inv-1", inv "inv-1" "0.001" "10.001");
                                  ("inv-2", inv "inv-2" "0.002" "10.002");
                                  ("inv-3", inv "inv-3" "0.003" "10.003")];
                 Mem.lastProcessedTime := 0; Mem.log := [] |} in
  let db_full := db_run 4 cfg3 [(0, Post (Some 10%float) "inv-1");
                                (0, Post (Some 10%float) "inv-2");
                                (0, Post (Some 10%float) "inv-3")] Db.init in
  visited 2 cfg1 (TAG_STEP cfg1) = Some [0.001%float]
  /\ Mem.invoices s1 = [("inv-1", inv "inv-1" "0.001" "10.001")]
  /\ fst (Mem.post_invoice (S fuel) cfg1 (Some 10%float) "inv-2" 0 s1)
     = R200 (inv "inv-2" "0.001" "10.001")
  /\ visited 4 cfg3 (TAG_STEP cfg3) = Some [0.001%float; 0.002%float; 0.003%float]
  /\ fst (Mem.post_invoice (S fuel) cfg3 (Some 10%float) "inv-4" 0 full)
     = R200 (inv "inv-4" "0.001" "10.001")
  /\ map Db.row_tag (Db.select_pending (Db.invoices db_full))
     = [1000000000000000; 2000000000000000; 3000000000000000]
  /\ Db.post_invoice 4 cfg3 (Some 10%float) "inv-4" 0 db_full = (R503, db_full).
Proof. intros. vm_compute. repeat split; reflexivity. Qed.

(* ================================================================= *)
(** * Further facts about the code *)

(** ** The allocators *)

Module AllocatorFacts.

Lemma used_tags_hold_no_number (m : list (string * Invoice)) (x : float) :
  set_has (Mem.used_tags m) (JNum x) = false.
Proof.
  induction m as [| [k inv] r IH]; [reflexivity |].
  cbn [Mem.used_tags]. destruct (is_pending (status inv)); [| exact IH].
  unfold set_has in *. cbn [existsb same_value_zero]. exact IH.
Qed.

Lemma scan_visited (cfg : Config) (used : list JsVal) :
  forall fuel t l,
    visited fuel cfg t = Some l ->
    allocate_scan fuel cfg used t
    = Some (find (fun g => negb (set_has used (JNum g))) l).
Proof.
  induction fuel as [| fuel IH]; intros t l H; [discriminate |].
  cbn [visited allocate_scan] in *.
  destruct (PrimFloat.leb t (TAG_MAX cfg + 1e-12)).
  - destruct (visited fuel cfg (t + TAG_STEP cfg)) as [l' |] eqn:E; [| discriminate].
    injection H as <-. cbn [find].
    destruct (negb (set_has used (JNum (roundTo3 t)))); [reflexivity |].
    now apply IH.
  - injection H as <-. reflexivity.
Qed.

Lemma set_has_numbers (rows : list Db.Row) (g : float) :
  negb (set_has (map (fun r => JNum (Db.Number_of_numeric (Db.row_tag r))) rows) (JNum g))
  = negb (existsb (fun r => JsNumber.same_value_zero g
                              (Db.Number_of_numeric (Db.row_tag r))) rows).
Proof.
  f_equal. unfold set_has. induction rows as [| r rest IH]; [reflexivity |].
  cbn [map existsb same_value_zero]. now rewrite IH.
Qed.

Lemma find_pointwise {A : Type} (f g : A -> bool) (l : list A) :
  (forall a, f a = g a) -> find f l = find g l.
Proof.
  intros E. induction l as [| a r IH]; [reflexivity |].
  cbn [find]. now rewrite E, IH.
Qed.

Lemma allocateTagFromDb_visited
    (fuel : nat) (cfg : Config) (grid : list float) (s : Db.State) :
  visited fuel cfg (TAG_STEP cfg) = Some grid ->
  Db.allocateTagFromDb fuel cfg s
  = Some (find (db_tag_free (Db.invoices s)) grid).
Proof.
  intros H. unfold Db.allocateTagFromDb.
  rewrite (scan_visited cfg _ fuel _ grid H). f_equal.
  apply find_pointwise. intros g. unfold db_tag_free.
  apply set_has_numbers.
Qed.

End AllocatorFacts.

(** X1.  [allocateTag] does not depend on the invoices in the store: with
    any store it returns the rounded [TAG_STEP] when the grid has a first
    point, and [null] only when it has none. *)
Theorem mem_allocateTag_ignores_the_store (fuel : nat) (cfg : Config) (s : Mem.State) :
  Mem.allocateTag (S fuel) cfg s
  = Some (if PrimFloat.leb (TAG_STEP cfg) (TAG_MAX cfg + 1e-12)%float
          then Some (roundTo3 (TAG_STEP cfg)) else None).
Proof.
  unfold Mem.allocateTag. cbn [allocate_scan].
  rewrite AllocatorFacts.used_tags_hold_no_number. cbn [negb].
  now destruct (PrimFloat.leb _ _).
Qed.

(** X2.  When the allocator's loop visits the tags [grid] and ends within
    the fuel, [allocateTagFromDb] returns the first tag of [grid] that is
    the tag of no pending row, and [null] when there is none. *)
Theorem db_allocateTag_first_free_tag
    (fuel : nat) (cfg : Config) (grid : list float) (s : Db.State) :
  visited fuel cfg (TAG_STEP cfg) = Some grid ->
  Db.allocateTagFromDb fuel cfg s
  = Some (find (db_tag_free (Db.invoices s)) grid).
Proof. apply AllocatorFacts.allocateTagFromDb_visited. Qed.

Lemma db_allocateTag_first_free_tag_witness :
  let cfg := {| TAG_STEP := 0.001; TAG_MAX := 0.003; DECIMALS := 18;
                wallet_address := "0xAa11" |} in
  let s := db_run 4 cfg [(0, Post (Some 10%float) "inv-1");
                         (0, Post (Some 10%float) "inv-2")] Db.init in
  Db.allocateTagFromDb 4 cfg s = Some (Some 0.003%float).
Proof.
  intros cfg s.
  rewrite (db_allocateTag_first_free_tag 4 cfg
             [0.001%float; 0.002%float; 0.003%float] s
             ltac:(vm_compute; reflexivity)).
  vm_compute. reflexivity.
Defined.

(** X3.  With the default [TAG_STEP] and [TAG_MAX] the loop visits exactly
    the 99 numbers 1/1000, ..., 99/1000 in increasing order, so
    [allocateTagFromDb] returns the smallest of them that no pending row
    holds, whatever the table holds, and [null] when all are held. *)
Theorem db_allocateTag_default_grid (address : string) (s : Db.State) :
  visited 100 (default_config address) (TAG_STEP (default_config address))
  = Some (map slot (Zseq 1 99))
  /\ Db.allocateTagFromDb 100 (default_config address) s
     = Some (find (db_tag_free (Db.invoices s)) (map slot (Zseq 1 99))).
Proof.
  assert (V : visited 100 (default_config address) (TAG_STEP (default_config address))
              = Some (map slot (Zseq 1 99))) by (vm_compute; reflexivity).
  split; [exact V |]. now apply AllocatorFacts.allocateTagFromDb_visited.
Qed.

(** ** Invariants of the tables *)

Module TableFacts.

Lemma confirm_ids (tx target : string) (rows : list Db.Row) :
  map Db.row_id (Db.confirm tx target rows) = map Db.row_id rows.
Proof.
  unfold Db.confirm. rewrite map_map. apply map_ext. intros r.
  now destruct (_ && _).
Qed.

Lemma confirm_pay_amounts (tx target : string) (rows : list Db.Row) :
  map Db.pay_amount (Db.confirm tx target rows) = map Db.pay_amount rows.
Proof.
  unfold Db.confirm. rewrite map_map. apply map_ext. intros r.
  now destruct (_ && _).
Qed.

Lemma confirm_consistent (tx target : string) (rows : list Db.Row) :
  Forall row_consistent rows -> Forall row_consistent (Db.confirm tx target rows).
Proof.
  intros H. unfold Db.confirm. apply Forall_map.
  apply (Forall_impl _ (P := row_consistent)); [| exact H].
  intros r C. destruct (_ && _); [| exact C].
  unfold row_consistent. cbn. split; discriminate.
Qed.

Lemma kept_keys : kept keys_distinct.
Proof.
  intros tx target rows [I P]. split.
  - now rewrite confirm_ids.
  - now rewrite confirm_pay_amounts.
Qed.

Lemma kept_consistent : kept (Forall row_consistent).
Proof. intros tx target rows. apply confirm_consistent. Qed.

Section Kept.

Variables (P : list Db.Row -> Prop) (K : kept P) (cfg : Config).

Lemma step_keeps (now : Z) (t : Transfer) (s : Db.State) :
  P (Db.invoices s) -> P (Db.invoices (fst (Db.step cfg now t s))).
Proof.
  intros H.
  destruct (DedupFacts.step_outcomes cfg now t s); cbn [fst Db.invoices]; auto.
Qed.

Lemma steps_keep (now : Z) (ts : list Transfer) : forall s,
  P (Db.invoices s) -> P (Db.invoices (fst (Db.steps cfg now ts s))).
Proof.
  induction ts as [| t r IH]; intros s H; cbn [Db.steps]; [exact H |].
  pose proof (step_keeps now t s H) as H1.
  destruct (Db.step cfg now t s) as [s1 []]; cbn [fst] in *; auto.
Qed.

Lemma depositLoop_keeps (now : Z) (answer : option (option FeedData)) (s : Db.State) :
  P (Db.invoices s) -> P (Db.invoices (Db.depositLoop cfg now answer s)).
Proof.
  intros H. unfold Db.depositLoop. destruct answer as [data |]; [| exact H].
  pose proof (steps_keep now (fetchIncomingUsdtTransfers data) s H) as H1.
  now destruct (Db.steps cfg now (fetchIncomingUsdtTransfers data) s) as [s1 []].
Qed.

End Kept.

(** The route stores nothing, or appends the row of the answer. *)
Lemma post_invoice_rows (fuel : nat) (cfg : Config) (amount : option float)
    (new_id : string) (now : Z) (s : Db.State) :
  let out := Db.post_invoice fuel cfg amount new_id now s in
  Db.processed_txs (snd out) = Db.processed_txs s
  /\ ((forall inv, fst out <> R200 inv) /\ Db.invoices (snd out) = Db.invoices s
      \/ exists inv vreq vtag vpay,
           fst out = R200 inv /\ id inv = new_id /\ status inv = pending
           /\ txHash inv = None
           /\ Db.numeric_in (requestedAmount inv) = Some vreq
           /\ Db.numeric_in (tag inv) = Some vtag
           /\ Db.numeric_in (payAmount inv) = Some vpay
           /\ existsb (fun r => String.eqb (Db.row_id r) new_id) (Db.invoices s) = false
           /\ existsb (fun r => Db.pay_amount r =? vpay) (Db.invoices s) = false
           /\ Db.invoices (snd out)
              = (Db.invoices s
                 ++ [{| Db.row_id := new_id; Db.requested_amount := vreq;
                        Db.row_tag := vtag; Db.pay_amount := vpay;
                        Db.row_status := pending;
                        Db.to_address := wallet_address cfg;
                        Db.created_at := now; Db.tx_hash := None |}])%list).
Proof.
  unfold Db.post_invoice.
  destruct (amount_rejected amount); [split; [| left; split]; easy |].
  destruct (Db.allocateTagFromDb fuel cfg s) as [[tg |] |];
    [| split; [| left; split]; easy | split; [| left; split]; easy].
  cbn zeta.
  destruct (Db.insert_invoice _ _ _ _ _ _ _) as [rows |] eqn:E;
    [| split; [| left; split]; easy].
  cbn [fst snd Db.invoices Db.processed_txs]. split; [reflexivity |]. right.
  unfold Db.insert_invoice in E.
  destruct (Db.numeric_in _) as [vreq |] eqn:E1 in E; [| discriminate].
  destruct (Db.numeric_in _) as [vtag |] eqn:E2 in E; [| discriminate].
  destruct (Db.numeric_in _) as [vpay |] eqn:E3 in E; [| discriminate].
  destruct (existsb _ _) eqn:X1 in E; [discriminate |].
  destruct (existsb _ _) eqn:X2 in E; [discriminate |].
  injection E as <-.
  eexists _, vreq, vtag, vpay. cbn [id status txHash requestedAmount tag payAmount].
  repeat split; try reflexivity; assumption.
Qed.

Lemma NoDup_snoc {A : Type} (l : list A) (a : A) :
  NoDup l -> ~ In a l -> NoDup (l ++ [a]).
Proof.
  intros N H. induction N as [| x l Hx N IH]; cbn.
  - constructor; [easy | constructor].
  - constructor.
    + rewrite in_app_iff. intros [I | [E | []]]; [easy |].
      subst. apply H. now left.
    + apply IH. intros I. apply H. now right.
Qed.

Lemma post_invoice_keys (fuel : nat) (cfg : Config) (amount : option float)
    (new_id : string) (now : Z) (s : Db.State) :
  keys_distinct (Db.invoices s) ->
  keys_distinct (Db.invoices (snd (Db.post_invoice fuel cfg amount new_id now s))).
Proof.
  intros [I P].
  destruct (post_invoice_rows fuel cfg amount new_id now s)
    as (_ & [[_ E] | (inv & vreq & vtag & vpay & _ & _ & _ & _ & _ & _ & _ & X1 & X2 & E)]);
    cbn zeta in E; rewrite E; [now split |].
  split; rewrite map_app; cbn [map]; apply NoDup_snoc; trivial.
  - intros H. apply in_map_iff in H as (r & Hr & Hin).
    assert (T : existsb (fun r => String.eqb (Db.row_id r) new_id) (Db.invoices s) = true).
    { apply existsb_exists. exists r. split; [exact Hin |]. rewrite Hr.
      apply String.eqb_refl. }
    congruence.
  - intros H. apply in_map_iff in H as (r & Hr & Hin).
    assert (T : existsb (fun r => Db.pay_amount r =? vpay) (Db.invoices s) = true).
    { apply existsb_exists. exists r. split; [exact Hin |]. rewrite Hr.
      apply Z.eqb_refl. }
    congruence.
Qed.

Lemma post_invoice_consistent (fuel : nat) (cfg : Config) (amount : option float)
    (new_id : string) (now : Z) (s : Db.State) :
  Forall row_consistent (Db.invoices s) ->
  Forall row_consistent
    (Db.invoices (snd (Db.post_invoice fuel cfg amount new_id now s))).
Proof.
  intros H.
  destruct (post_invoice_rows fuel cfg amount new_id now s)
    as (_ & [[_ E] | (inv & vreq & vtag & vpay & _ & _ & _ & _ & _ & _ & _ & _ & _ & E)]);
    cbn zeta in E; rewrite E; [exact H |].
  apply Forall_app. split; [exact H |]. constructor; [| constructor].
  unfold row_consistent. cbn. tauto.
Qed.

Lemma db_run_keeps (P : list Db.Row -> Prop) (fuel : nat) (cfg : Config) :
  kept P ->
  (forall amount new_id now s,
      P (Db.invoices s) ->
      P (Db.invoices (snd (Db.post_invoice fuel cfg amount new_id now s)))) ->
  forall evs s, P (Db.invoices s) -> P (Db.invoices (db_run fuel cfg evs s)).
Proof.
  intros K Q. induction evs as [| [now [amount new_id | answer]] r IH];
    intros s H; cbn [db_run]; [exact H | |].
  - apply IH. now apply Q.
  - apply IH. now apply depositLoop_keeps.
Qed.

End TableFacts.

(** X4.  In every state the Postgres variant reaches from the empty
    tables, by any history of invoice requests and cycles, the ids of the
    invoices are distinct and so are their pay amounts, pending or
    confirmed. *)
Theorem db_pay_amounts_stay_distinct
    (fuel : nat) (cfg : Config) (evs : list (Z * DbEvent)) :
  keys_distinct (Db.invoices (db_run fuel cfg evs Db.init)).
Proof.
  apply TableFacts.db_run_keeps.
  - exact TableFacts.kept_keys.
  - intros. now apply TableFacts.post_invoice_keys.
  - split; constructor.
Qed.

(** X5.  In every state the Postgres variant reaches from the empty
    tables, an invoice is pending exactly when its [tx_hash] is null. *)
Theorem db_pending_iff_no_tx_hash
    (fuel : nat) (cfg : Config) (evs : list (Z * DbEvent)) :
  Forall row_consistent (Db.invoices (db_run fuel cfg evs Db.init)).
Proof.
  apply TableFacts.db_run_keeps.
  - exact TableFacts.kept_consistent.
  - intros. now apply TableFacts.post_invoice_consistent.
  - constructor.
Qed.

(** ** The in-memory store *)

Module StoreFacts.

(** The inner loop confirms the first pending invoice with the received
    amount, and nothing else. *)
Lemma settle_shape (cfg : Config) (received : string) (tx : option string) :
  forall m m',
    Mem.settle cfg received tx m = Some m' ->
    (m' = m /\ none_matches cfg received m)
    \/ exists pre k inv post,
         m = (pre ++ (k, inv) :: post)%list
         /\ m' = (pre ++ (k, Mem.confirm_invoice inv tx) :: post)%list
         /\ status inv = pending
         /\ amountsEqual cfg (payAmount inv) received = Some true
         /\ none_matches cfg received pre.
Proof.
  induction m as [| [k inv] r IH]; intros m' H; cbn [Mem.settle] in H.
  - injection H as <-. left. split; [reflexivity | constructor].
  - destruct (status inv) eqn:P; cbn [is_pending negb] in H.
    + destruct (amountsEqual cfg (payAmount inv) received) as [[|] |] eqn:E;
        [| | discriminate].
      * injection H as <-. right. exists [], k, inv, r.
        repeat split; trivial. constructor.
      * destruct (Mem.settle cfg received tx r) as [r' |]; [| discriminate].
        injection H as <-.
        destruct (IH r' eq_refl) as [[-> N] | (pre & k' & inv' & post & -> & -> & Q)].
        -- left. split; [reflexivity |]. constructor; [now intros _ | exact N].
        -- right. exists ((k, inv) :: pre), k', inv', post.
           destruct Q as (Q1 & Q2 & Q3). repeat split; trivial.
           constructor; [now intros _ | exact Q3].
    + destruct (Mem.settle cfg received tx r) as [r' |]; [| discriminate].
      injection H as <-.
      destruct (IH r' eq_refl) as [[-> N] | (pre & k' & inv' & post & -> & -> & Q)].
      * left. split; [reflexivity |].
        constructor; [cbn; rewrite P; discriminate | exact N].
      * right. exists ((k, inv) :: pre), k', inv', post.
        destruct Q as (Q1 & Q2 & Q3). repeat split; trivial.
        constructor; [cbn; rewrite P; discriminate | exact Q3].
Qed.

Lemma settle_keys (cfg : Config) (received : string) (tx : option string)
    (m m' : list (string * Invoice)) :
  Mem.settle cfg received tx m = Some m' ->
  store_consistent m -> store_consistent m'.
Proof.
  intros H [N F].
  destruct (settle_shape cfg received tx m m' H)
    as [[-> _] | (pre & k & inv & post & -> & -> & P & _)]; [now split |].
  split.
  - rewrite map_app in *. exact N.
  - apply Forall_app in F as [F1 F2]. inversion F2 as [| ? ? [Hk Hc] F3]; subst.
    apply Forall_app. split; [exact F1 |]. constructor; [| exact F3].
    cbn in *. split; [exact Hk | discriminate].
Qed.

Lemma map_set_keys (k : string) (v : Invoice) (m : list (string * Invoice)) :
  map fst (Mem.map_set k v m) = map fst m /\ In k (map fst m)
  \/ map fst (Mem.map_set k v m) = (map fst m ++ [k])%list /\ ~ In k (map fst m).
Proof.
  induction m as [| [k' v'] r IH]; cbn [Mem.map_set map].
  - right. split; [reflexivity | easy].
  - destruct (String.eqb_spec k k') as [-> | N]; cbn [map fst].
    + left. split; [reflexivity | now left].
    + destruct IH as [[E I] | [E I]]; rewrite E.
      * left. split; [reflexivity | now right].
      * right. split; [reflexivity |]. intros [H | H]; [congruence | easy].
Qed.

Lemma map_set_forall (P : string * Invoice -> Prop) (k : string) (v : Invoice)
    (m : list (string * Invoice)) :
  P (k, v) -> Forall P m -> Forall P (Mem.map_set k v m).
Proof.
  intros Hv F. induction F as [| [k' v'] r H F IH]; cbn [Mem.map_set].
  - constructor; [exact Hv | constructor].
  - destruct (String.eqb k k'); constructor; trivial.
Qed.

Lemma map_get_set_same (k : string) (v : Invoice) (m : list (string * Invoice)) :
  Mem.map_get k (Mem.map_set k v m) = Some v.
Proof.
  induction m as [| [k' v'] r IH]; cbn [Mem.map_set Mem.map_get].
  - now rewrite String.eqb_refl.
  - destruct (String.eqb k k') eqn:E; cbn [Mem.map_get].
    + now rewrite String.eqb_refl.
    + now rewrite E.
Qed.

Lemma map_get_set_other (k k0 : string) (v : Invoice) (m : list (string * Invoice)) :
  k0 <> k -> Mem.map_get k0 (Mem.map_set k v m) = Mem.map_get k0 m.
Proof.
  intros N. induction m as [| [k' v'] r IH]; cbn [Mem.map_set Mem.map_get].
  - apply String.eqb_neq in N. now rewrite N.
  - destruct (String.eqb_spec k k') as [<- | N']; cbn [Mem.map_get].
    + apply String.eqb_neq in N. now rewrite N.
    + now rewrite IH.
Qed.

(** The route stores nothing, or sets the invoice of the answer under its
    id. *)
Lemma post_invoice_store (fuel : nat) (cfg : Config) (amount : option float)
    (new_id : string) (now : Z) (s : Mem.State) :
  let out := Mem.post_invoice fuel cfg amount new_id now s in
  ((forall inv, fst out <> R200 inv) /\ snd out = s)
  \/ exists inv,
       fst out = R200 inv /\ id inv = new_id /\ status inv = pending
       /\ txHash inv = None /\ toAddress inv = wallet_address cfg
       /\ snd out = {| Mem.invoices := Mem.map_set new_id inv (Mem.invoices s);
                       Mem.lastProcessedTime := Mem.lastProcessedTime s;
                       Mem.log := Mem.log s |}.
Proof.
  unfold Mem.post_invoice.
  destruct (amount_rejected amount); [left; split; easy |].
  destruct (Mem.allocateTag fuel cfg s) as [[tg |] |];
    [| left; split; easy | left; split; easy].
  right. eexists. cbn [fst snd]. repeat split.
Qed.

Lemma post_invoice_store_consistent (fuel : nat) (cfg : Config) (amount : option float)
    (new_id : string) (now : Z) (s : Mem.State) :
  store_consistent (Mem.invoices s) ->
  store_consistent (Mem.invoices (snd (Mem.post_invoice fuel cfg amount new_id now s))).
Proof.
  intros [N F].
  destruct (post_invoice_store fuel cfg amount new_id now s)
    as [[_ ->] | (inv & _ & I & P & T & _ & ->)]; [now split |].
  cbn [Mem.invoices]. split.
  - destruct (map_set_keys new_id inv (Mem.invoices s)) as [[-> _] | [-> H]];
      [exact N | now apply TableFacts.NoDup_snoc].
  - apply map_set_forall; [| exact F]. cbn. split; [now rewrite I | now intros _].
Qed.

Lemma step_consistent (cfg : Config) (t : Transfer) (s : Mem.State) :
  store_consistent (Mem.invoices s) ->
  store_consistent (Mem.invoices (fst (Mem.step cfg t s))).
Proof.
  intros H. unfold Mem.step.
  destruct (timeStamp t =? 0); [exact H |].
  destruct (timeStamp t <=? Mem.lastProcessedTime s); [exact H |].
  destruct (negb _); [exact H |].
  destruct (formatTokenAmount cfg (value t)) as [received |]; [| exact H].
  cbn [Mem.add_log Mem.invoices].
  destruct (Mem.settle cfg received (hash t) (Mem.invoices s)) as [m |] eqn:E;
    cbn [fst Mem.invoices]; [| exact H].
  exact (settle_keys cfg received (hash t) _ m E H).
Qed.

Lemma steps_consistent (cfg : Config) (ts : list Transfer) : forall s,
  store_consistent (Mem.invoices s) ->
  store_consistent (Mem.invoices (fst (Mem.steps cfg ts s))).
Proof.
  induction ts as [| t r IH]; intros s H; cbn [Mem.steps]; [exact H |].
  pose proof (step_consistent cfg t s H) as H1.
  destruct (Mem.step cfg t s) as [s1 []]; cbn [fst] in *; auto.
Qed.

Lemma advance_mark_invoices (ts : list Transfer) (s : Mem.State) :
  Mem.invoices (Mem.advance_mark ts s) = Mem.invoices s.
Proof.
  unfold Mem.advance_mark. destruct ts as [| t0 r]; [reflexivity |].
  now destruct (_ <? _).
Qed.

Lemma depositLoop_consistent (cfg : Config) (answer : option (option FeedData))
    (s : Mem.State) :
  store_consistent (Mem.invoices s) ->
  store_consistent (Mem.invoices (Mem.depositLoop cfg answer s)).
Proof.
  intros H. unfold Mem.depositLoop. destruct answer as [data |]; [| exact H].
  pose proof (steps_consistent cfg (fetchIncomingUsdtTransfers data) s H) as H1.
  destruct (Mem.steps cfg (fetchIncomingUsdtTransfers data) s) as [s1 []];
    cbn [fst] in H1; [exact H1 |].
  now rewrite advance_mark_invoices.
Qed.

End StoreFacts.

(** X6.  The inner loop of the in-memory [depositLoop] changes at most
    one invoice per transfer: either no pending invoice has the received
    amount and the store stays as it is, or the first pending invoice with
    that amount, in store order, becomes confirmed with the transfer's
    hash, and every other invoice, also a later one with the same pay
    amount, stays as it is. *)
Theorem mem_settle_confirms_the_first_match_only
    (cfg : Config) (received : string) (tx : option string)
    (m m' : list (string * Invoice)) :
  Mem.settle cfg received tx m = Some m' ->
  (m' = m /\ none_matches cfg received m)
  \/ exists pre k inv post,
       m = (pre ++ (k, inv) :: post)%list
       /\ m' = (pre ++ (k, Mem.confirm_invoice inv tx) :: post)%list
       /\ status inv = pending
       /\ amountsEqual cfg (payAmount inv) received = Some true
       /\ none_matches cfg received pre.
Proof. apply StoreFacts.settle_shape. Qed.

Lemma mem_settle_confirms_the_first_match_only_witness :
  let cfg := default_config "0xAa11" in
  let inv := fun k =>
    {| id := k; requestedAmount := "10.000"; tag := "0.001";
       payAmount := "10.001"; status := pending; toAddress := "0xAa11";
       createdAt := 0; txHash := None |} in
  let m := [("inv-1", inv "inv-1"); ("inv-2", inv "inv-2")] in
  let m' := [("inv-1", Mem.confirm_invoice (inv "inv-1") (Some "0xBEEF"));
             ("inv-2", inv "inv-2")] in
  Mem.settle cfg "10.001" (Some "0xBEEF") m = Some m'
  /\ ((m' = m /\ none_matches cfg "10.001" m)
      \/ exists pre k i post,
           m = (pre ++ (k, i) :: post)%list
           /\ m' = (pre ++ (k, Mem.confirm_invoice i (Some "0xBEEF")) :: post)%list
           /\ status i = pending
           /\ amountsEqual cfg (payAmount i) "10.001" = Some true
           /\ none_matches cfg "10.001" pre).
Proof.
  intros cfg inv m m'.
  assert (E : Mem.settle cfg "10.001" (Some "0xBEEF") m = Some m')
    by (vm_compute; reflexivity).
  split; [exact E |].
  exact (mem_settle_confirms_the_first_match_only cfg "10.001" (Some "0xBEEF") m m' E).
Defined.

(** X7.  In every state the in-memory variant reaches from the empty
    store, by any history of invoice requests and cycles, the keys of the
    [Map] are distinct, every invoice is stored under its own id, and a
    pending invoice has a null [txHash]. *)
Theorem mem_store_stays_consistent
    (fuel : nat) (cfg : Config) (evs : list MemEvent) :
  store_consistent (Mem.invoices (mem_run fuel cfg evs Mem.init)).
Proof.
  assert (G : forall s, store_consistent (Mem.invoices s) ->
                        store_consistent (Mem.invoices (mem_run fuel cfg evs s))).
  { induction evs as [| [amount new_id now | answer] r IH]; intros s H;
      cbn [mem_run]; [exact H | |].
    - apply IH. now apply StoreFacts.post_invoice_store_consistent.
    - apply IH. now apply StoreFacts.depositLoop_consistent. }
  apply G. split; constructor.
Qed.

(** X8.  [POST /api/invoices] of the in-memory variant answers 200
    whenever the amount passes the check and the allocator returns a tag.
    The invoice it answers with is what [GET /api/invoices/:id] returns
    for its id right after, and the invoices under other ids are what they
    were; when the answer is not 200 the state is unchanged. *)
Theorem mem_post_then_get
    (fuel : nat) (cfg : Config) (amount : option float) (new_id : string)
    (now : Z) (s : Mem.State) :
  let out := Mem.post_invoice fuel cfg amount new_id now s in
  (forall inv, fst out = R200 inv ->
     mem_get_invoice new_id (snd out) = Some inv
     /\ forall k, k <> new_id ->
                  mem_get_invoice k (snd out) = mem_get_invoice k s)
  /\ ((forall inv, fst out <> R200 inv) -> snd out = s)
  /\ (forall tg, amount_rejected amount = false ->
                 Mem.allocateTag fuel cfg s = Some (Some tg) ->
                 exists inv, fst out = R200 inv /\ tag inv = toFixed3 tg
                             /\ status inv = pending /\ id inv = new_id).
Proof.
  cbn zeta. split; [| split].
  - destruct (StoreFacts.post_invoice_store fuel cfg amount new_id now s)
      as [[N E] | (inv & R & _ & _ & _ & _ & E)]; cbn zeta in *.
    + intros inv R. now destruct (N inv).
    + intros inv' R'. rewrite R in R'. injection R' as <-. rewrite E.
      unfold mem_get_invoice. cbn [Mem.invoices]. split.
      * apply StoreFacts.map_get_set_same.
      * intros k Hk. now apply StoreFacts.map_get_set_other.
  - destruct (StoreFacts.post_invoice_store fuel cfg amount new_id now s)
      as [[N E] | (inv & R & _)]; cbn zeta in *; [now intros _ |].
    intros N. now destruct (N inv).
  - intros tg A T. unfold Mem.post_invoice. rewrite A, T. cbn [fst].
    eexists. repeat split.
Qed.

(** ** The high-water mark *)

Module MarkFacts.

Lemma step_mark (cfg : Config) (t : Transfer) (s : Mem.State) :
  Mem.lastProcessedTime (fst (Mem.step cfg t s)) = Mem.lastProcessedTime s.
Proof.
  unfold Mem.step.
  destruct (timeStamp t =? 0); [reflexivity |].
  destruct (timeStamp t <=? Mem.lastProcessedTime s); [reflexivity |].
  destruct (negb _); [reflexivity |].
  destruct (formatTokenAmount cfg (value t)) as [received |]; [| reflexivity].
  now destruct (Mem.settle cfg received (hash t) _).
Qed.

Lemma steps_mark (cfg : Config) (ts : list Transfer) : forall s,
  Mem.lastProcessedTime (fst (Mem.steps cfg ts s)) = Mem.lastProcessedTime s.
Proof.
  induction ts as [| t r IH]; intros s; cbn [Mem.steps]; [reflexivity |].
  pose proof (step_mark cfg t s) as H.
  destruct (Mem.step cfg t s) as [s1 []]; cbn [fst] in *; [exact H |].
  now rewrite IH.
Qed.

Lemma step_stale (cfg : Config) (t : Transfer) (s : Mem.State) :
  timeStamp t <= Mem.lastProcessedTime s -> Mem.step cfg t s = (s, false).
Proof.
  intros H. unfold Mem.step.
  destruct (timeStamp t =? 0); [reflexivity |].
  apply Z.leb_le in H. now rewrite H.
Qed.

Lemma steps_stale (cfg : Config) (ts : list Transfer) (s : Mem.State) :
  Forall (fun t => timeStamp t <= Mem.lastProcessedTime s) ts ->
  Mem.steps cfg ts s = (s, false).
Proof.
  induction 1 as [| t r H F IH]; cbn [Mem.steps]; [reflexivity |].
  now rewrite (step_stale cfg t s H).
Qed.

Lemma depositLoop_mark (cfg : Config) (answer : option (option FeedData)) (s : Mem.State) :
  Mem.lastProcessedTime s <= Mem.lastProcessedTime (Mem.depositLoop cfg answer s).
Proof.
  unfold Mem.depositLoop. destruct answer as [data |]; [| cbn; lia].
  pose proof (steps_mark cfg (fetchIncomingUsdtTransfers data) s) as H.
  destruct (Mem.steps cfg (fetchIncomingUsdtTransfers data) s) as [s1 []];
    cbn [fst] in H; [cbn; lia |].
  unfold Mem.advance_mark. destruct (fetchIncomingUsdtTransfers data) as [| t0 r];
    [lia |].
  destruct (Z.ltb_spec (Mem.lastProcessedTime s1) (timeStamp t0)); cbn; lia.
Qed.

Lemma post_invoice_mark (fuel : nat) (cfg : Config) (amount : option float)
    (new_id : string) (now : Z) (s : Mem.State) :
  Mem.lastProcessedTime (snd (Mem.post_invoice fuel cfg amount new_id now s))
  = Mem.lastProcessedTime s.
Proof.
  destruct (StoreFacts.post_invoice_store fuel cfg amount new_id now s)
    as [[_ ->] | (inv & _ & _ & _ & _ & _ & ->)]; reflexivity.
Qed.

End MarkFacts.

(** X9.  The mark of the in-memory variant never goes back, through any
    history of invoice requests and cycles; and a page whose transfers all
    have a time stamp at or below the mark leaves the whole state as it
    is: none of them is looked at, whether seen before or not. *)
Theorem mem_mark_never_goes_back
    (fuel : nat) (cfg : Config) (evs : list MemEvent) (s : Mem.State) :
  Mem.lastProcessedTime s <= Mem.lastProcessedTime (mem_run fuel cfg evs s)
  /\ (forall ts,
        Forall (fun t => timeStamp t <= Mem.lastProcessedTime s) ts ->
        Mem.depositLoop cfg (page ts) s = s).
Proof.
  split.
  - revert s. induction evs as [| [amount new_id now | answer] r IH]; intros s;
      cbn [mem_run]; [lia | |].
    + specialize (IH (snd (Mem.post_invoice fuel cfg amount new_id now s))).
      rewrite MarkFacts.post_invoice_mark in IH. exact IH.
    + pose proof (MarkFacts.depositLoop_mark cfg answer s).
      specialize (IH (Mem.depositLoop cfg answer s)). lia.
  - intros ts F. unfold Mem.depositLoop, page. cbn [fetchIncomingUsdtTransfers
      result_falsy fd_result fd_status].
    rewrite (MarkFacts.steps_stale cfg ts s F).
    unfold Mem.advance_mark. destruct F as [| t0 r H F]; [reflexivity |].
    destruct (Z.ltb_spec (Mem.lastProcessedTime s) (timeStamp t0)); [lia | reflexivity].
Qed.

(** ** Comparisons that throw *)

(** X10.  A pending invoice whose [payAmount] the library cannot parse
    stops the in-memory cycle: when a transfer reaches the inner loop and
    no pending invoice before that one, in store order, has the received
    amount, the cycle throws there.  It has printed the transfer and logs
    the error; no invoice changes, the mark stays where it was, and the
    rest of the page is not looked at. *)
Theorem mem_unreadable_payAmount_stops_the_cycle
    (cfg : Config) (t : Transfer) (rest : list Transfer) (received : string)
    (s : Mem.State) (pre post : list (string * Invoice)) (k : string) (inv : Invoice) :
  timeStamp t <> 0 ->
  Mem.lastProcessedTime s < timeStamp t ->
  toLowerCase (to t) = toLowerCase (wallet_address cfg) ->
  formatTokenAmount cfg (value t) = Some received ->
  Mem.invoices s = (pre ++ (k, inv) :: post)%list ->
  none_matches cfg received pre ->
  status inv = pending ->
  Ethers.parseUnits (payAmount inv) (DECIMALS cfg) = None ->
  Mem.depositLoop cfg (page (t :: rest)) s
  = Mem.add_log LogError
      (Mem.add_log (LogIncoming received (hash t) (timeStamp t)) s).
Proof.
  intros T0 T1 A F I N P U.
  unfold Mem.depositLoop, page.
  cbn [fetchIncomingUsdtTransfers result_falsy fd_result fd_status Mem.steps].
  assert (E : Mem.step cfg t s
              = (Mem.add_log (LogIncoming received (hash t) (timeStamp t)) s, true)).
  { unfold Mem.step. apply Z.eqb_neq in T0. rewrite T0.
    destruct (Z.leb_spec (timeStamp t) (Mem.lastProcessedTime s)); [lia |].
    rewrite A, String.eqb_refl, F. cbn [negb Mem.add_log Mem.invoices].
    rewrite I, MatchFacts.settle_throws; trivial.
    unfold amountsEqual. now rewrite U. }
  now rewrite E.
Qed.

Lemma mem_unreadable_payAmount_stops_the_cycle_witness :
  let cfg := default_config "0xAa11" in
  let s := mem_run 1 cfg [MPost (Some 1e306%float) "huge" 0;
                          MPost (Some 10%float) "inv-2" 1] Mem.init in
  let t := {| timeStamp := 1700000000; to := "0xaa11";
              value := Some 10001000000000000000; hash := Some "0xBEEF" |} in
  mem_pending_payAmounts s = ["Infinity"; "10.001"]
  /\ Mem.depositLoop cfg (page [t]) s
     = Mem.add_log LogError (Mem.add_log (LogIncoming "10.001" (Some "0xBEEF") 1700000000) s).
Proof.
  intros cfg s t.
  pose (huge := {| id := "huge"; requestedAmount := "Infinity"; tag := "0.001";
                   payAmount := "Infinity"; status := pending;
                   toAddress := "0xAa11"; createdAt := 0; txHash := None |}).
  pose (inv2 := {| id := "inv-2"; requestedAmount := "10.000"; tag := "0.001";
                   payAmount := "10.001"; status := pending;
                   toAddress := "0xAa11"; createdAt := 1; txHash := None |}).
  assert (I : Mem.invoices s = ([] ++ ("huge", huge) :: [("inv-2", inv2)])%list)
    by (vm_compute; reflexivity).
  assert (U : Ethers.parseUnits (payAmount huge) (DECIMALS cfg) = None)
    by (vm_compute; reflexivity).
  assert (F : formatTokenAmount cfg (value t) = Some "10.001")
    by (vm_compute; reflexivity).
  assert (A : toLowerCase (to t) = toLowerCase (wallet_address cfg))
    by (vm_compute; reflexivity).
  assert (T1 : Mem.lastProcessedTime s < timeStamp t)
    by (vm_compute; reflexivity).
  assert (T0 : timeStamp t <> 0) by discriminate.
  split; [vm_compute; reflexivity |].
  exact (mem_unreadable_payAmount_stops_the_cycle cfg t [] "10.001" s []
           [("inv-2", inv2)] "huge" huge T0 T1 A F I (Forall_nil _) eq_refl U).
Defined.

Module ThrowFacts.

(** What an iteration that throws has done. *)
Lemma step_with_throws (cfg : Config) (now : Z) (t : Transfer) :
  forall rejected s s',
  Db.step_with rejected cfg now t s = (s', true) ->
  Db.processed_txs s' = Db.processed_txs s
  /\ (s' = s
      \/ rejected = Some Db.InsertLedger
         /\ Db.is_processed (toLowerCase (hash_text t)) (Db.processed_txs s) = false
         /\ exists received,
              formatTokenAmount cfg (value t) = Some received
              /\ ((Db.find_match cfg received (Db.select_pending (Db.invoices s))
                   = Some None
                   /\ Db.invoices s' = Db.invoices s
                   /\ Db.log s'
                      = (Db.log s
                         ++ [LogNoMatch received (toLowerCase (hash_text t))])%list)
                  \/ exists matched,
                       Db.find_match cfg received (Db.select_pending (Db.invoices s))
                       = Some (Some matched)
                       /\ Db.invoices s'
                          = Db.confirm (hash_text t) matched (Db.invoices s)
                       /\ Db.log s'
                          = (Db.log s
                             ++ [LogConfirmed matched received (hash_text t)])%list)).
Proof.
  intros rejected s s' H. unfold Db.step_with in H.
  destruct (String.eqb (toLowerCase (hash_text t)) ""); [discriminate |].
  destruct (negb _); [discriminate |].
  destruct (Db.rejects rejected Db.SelectLedger); [injection H as <-; auto |].
  destruct (Db.is_processed _ _) eqn:P; [discriminate |].
  destruct (formatTokenAmount cfg (value t)) as [received |];
    [| injection H as <-; auto].
  destruct (Db.rejects rejected Db.SelectPending); [injection H as <-; auto |].
  destruct (Db.find_match cfg received _) as [[matched |] |] eqn:F;
    [| | injection H as <-; auto].
  - destruct (Db.rejects rejected Db.UpdateInvoice); [injection H as <-; auto |].
    cbn zeta in H.
    destruct (Db.rejects rejected Db.InsertLedger) eqn:R; [| discriminate].
    injection H as <-. split; [reflexivity |]. right.
    split; [| split; [reflexivity |]].
    + destruct rejected as [[] |]; try discriminate. reflexivity.
    + exists received. split; [reflexivity |]. right. exists matched. auto.
  - cbn zeta in H.
    destruct (Db.rejects rejected Db.InsertLedger) eqn:R; [| discriminate].
    injection H as <-. split; [reflexivity |]. right.
    split; [| split; [reflexivity |]].
    + destruct rejected as [[] |]; try discriminate. reflexivity.
    + exists received. split; [reflexivity |]. left. auto.
Qed.

End ThrowFacts.

(** X11.  An iteration that throws never records the transfer in the
    ledger.  In the Postgres variant it leaves the whole state as it was,
    unless the query Postgres rejected is the final [INSERT] into
    [processed_txs]: then the confirmation, or the unmatched deposit, has
    been made and printed already, with the transfer not recorded, so the
    next cycle takes it up again.  In the in-memory variant it leaves the
    invoices and the mark as they were. *)
Theorem thrown_iteration_records_nothing
    (cfg : Config) (now : Z) (t : Transfer) :
  (forall rejected s s',
      Db.step_with rejected cfg now t s = (s', true) ->
      Db.processed_txs s' = Db.processed_txs s
      /\ (s' = s
          \/ rejected = Some Db.InsertLedger
             /\ Db.is_processed (toLowerCase (hash_text t)) (Db.processed_txs s) = false
             /\ exists received,
                  formatTokenAmount cfg (value t) = Some received
                  /\ ((Db.find_match cfg received (Db.select_pending (Db.invoices s))
                       = Some None
                       /\ Db.invoices s' = Db.invoices s
                       /\ Db.log s'
                          = (Db.log s
                             ++ [LogNoMatch received (toLowerCase (hash_text t))])%list)
                      \/ exists matched,
                           Db.find_match cfg received (Db.select_pending (Db.invoices s))
                           = Some (Some matched)
                           /\ Db.invoices s'
                              = Db.confirm (hash_text t) matched (Db.invoices s)
                           /\ Db.log s'
                              = (Db.log s
                                 ++ [LogConfirmed matched received (hash_text t)])%list)))
  /\ (forall s s', Db.step cfg now t s = (s', true) -> s' = s)
  /\ (forall s s', Mem.step cfg t s = (s', true) ->
        Mem.invoices s' = Mem.invoices s
        /\ Mem.lastProcessedTime s' = Mem.lastProcessedTime s).
Proof.
  pose proof (ThrowFacts.step_with_throws cfg now t) as G.
  split; [exact G |]. split.
  - intros s s' H. unfold Db.step in H.
    destruct (G None s s' H) as [_ [E | [E _]]]; [exact E | discriminate].
  - intros s s' H. unfold Mem.step in H.
    destruct (timeStamp t =? 0); [discriminate |].
    destruct (timeStamp t <=? Mem.lastProcessedTime s); [discriminate |].
    destruct (negb _); [discriminate |].
    destruct (formatTokenAmount cfg (value t)) as [received |];
      [| injection H as <-; now split].
    destruct (Mem.settle cfg received (hash t) _); [discriminate |].
    injection H as <-. now split.
Qed.

(** ** Amounts read back from the table *)

Module NumericFacts.
Import Digits DigitsFacts Ethers EthersFacts.

Lemma parse_fixed_point (w x : N) (d : nat) :
  parse_magnitude (of_N w ++ String "." (fixed d x)) d
  = Some (w * 10 ^ N.of_nat d + x mod 10 ^ N.of_nat d)%N.
Proof.
  unfold parse_magnitude.
  rewrite (split_dot_point _ (fixed d x) (of_N_digits w)).
  rewrite of_N_digits, all_digits_fixed. cbn [andb negb].
  replace (String.length (of_N w) + String.length (fixed d x) =? 0)%nat with false.
  2:{ symmetry. apply Nat.eqb_neq.
      destruct (of_N w) eqn:E; [now destruct (of_N_nonempty w) |]. simpl. lia. }
  rewrite length_fixed, Nat.sub_diag. cbn [zeros]. rewrite app_empty_r.
  replace (drop d (fixed d x)) with EmptyString.
  2:{ rewrite <- (length_fixed d x) at 1. now rewrite drop_length. }
  cbn [all_zeros negb].
  replace (take d (fixed d x)) with (fixed d x).
  2:{ rewrite <- (length_fixed d x) at 2. now rewrite take_length. }
  unfold value. rewrite value_acc_app.
  pose proof (of_N_value w) as V. unfold value in V. rewrite V.
  apply value_acc_fixed.
Qed.

Lemma of_N_head (n : N) (t : string) :
  exists c r, (of_N n ++ t)%string = String c r /\ is_digit c = true.
Proof.
  pose proof (of_N_digits n) as A.
  destruct (of_N n) as [| c r] eqn:E; [now destruct (of_N_nonempty n) |].
  exists c, (r ++ t)%string. split; [reflexivity |].
  cbn [all_digits] in A. now apply andb_prop in A.
Qed.

(** The text the driver returns for a [NUMERIC(30, 18)] value parses, with
    18 decimals, to that value. *)
Lemma numeric_out_parse (v : Z) : parseUnits (Db.numeric_out v) 18 = Some v.
Proof.
  unfold Db.numeric_out.
  set (a := Z.to_N (Z.abs v)).
  assert (M : parse_magnitude
                (of_N (a / Db.numeric_unit)
                 ++ String "." (fixed 18 (a mod Db.numeric_unit))) 18 = Some a).
  { rewrite parse_fixed_point. f_equal.
    change (10 ^ N.of_nat 18)%N with Db.numeric_unit.
    assert (Db.numeric_unit <> 0)%N by discriminate.
    rewrite N.Div0.mod_mod by trivial.
    rewrite (N.div_mod a Db.numeric_unit) at 3 by trivial. lia. }
  change (of_N (a / Db.numeric_unit) ++ "." ++ fixed 18 (a mod Db.numeric_unit))%string
    with (of_N (a / Db.numeric_unit)
          ++ String "." (fixed 18 (a mod Db.numeric_unit)))%string.
  destruct (Z.ltb_spec v 0) as [Hneg | Hpos].
  - change ("-" ++ ?x)%string with (String "-" x). cbn [parseUnits].
    change (Ascii.eqb "-" "-") with true. cbn iota.
    rewrite M. cbn [option_map]. f_equal. lia.
  - cbn [append].
    destruct (of_N_head (a / Db.numeric_unit)
                (String "." (fixed 18 (a mod Db.numeric_unit)))) as (c & r & E & Hc).
    rewrite E in *. cbn [parseUnits].
    rewrite (digit_not_minus _ Hc), M. cbn [option_map]. f_equal. lia.
Qed.

Lemma numeric_in_parse (text : string) (v : Z) :
  Db.numeric_in text = Some v -> parseUnits text 18 = Some v.
Proof.
  unfold Db.numeric_in. destruct (parseUnits text 18) as [w |]; [| discriminate].
  destruct (Z.abs w <? 10 ^ 30); [trivial | discriminate].
Qed.

Lemma find_match_18 (cfg : Config) (raw : Z) :
  DECIMALS cfg = 18%nat ->
  forall rows,
    Db.find_match cfg (formatUnits raw 18) rows
    = Some (option_map Db.row_id (find (fun r => Db.pay_amount r =? raw) rows)).
Proof.
  intros D. induction rows as [| r rest IH]; [reflexivity |].
  cbn [Db.find_match find]. unfold amountsEqual. rewrite D.
  rewrite numeric_out_parse, parse_format.
  destruct (Db.pay_amount r =? raw); [reflexivity | exact IH].
Qed.

Lemma filter_none {A : Type} (f : A -> bool) (l : list A) :
  existsb f l = false -> filter f l = [].
Proof.
  induction l as [| a r IH]; [reflexivity |]. cbn.
  destruct (f a); [discriminate | exact IH].
Qed.

End NumericFacts.

(** X12.  With 18 token decimals the matching loop of the Postgres variant
    never throws, and it selects the first pending row, in table order,
    whose [pay_amount] is exactly the raw value of the transfer in
    smallest units; it finds none exactly when no pending row has that
    amount. *)
Theorem db_find_match_is_exact_with_18_decimals
    (cfg : Config) (raw : Z) (s : Db.State) :
  DECIMALS cfg = 18%nat ->
  formatTokenAmount cfg (Some raw) = Some (Ethers.formatUnits raw 18)
  /\ Db.find_match cfg (Ethers.formatUnits raw 18) (Db.select_pending (Db.invoices s))
     = Some (option_map Db.row_id
               (find (fun r => Db.pay_amount r =? raw)
                     (Db.select_pending (Db.invoices s)))).
Proof.
  intros D. split.
  - unfold formatTokenAmount. now rewrite D.
  - now apply NumericFacts.find_match_18.
Qed.

Lemma db_find_match_is_exact_with_18_decimals_witness :
  let cfg := default_config "0xAa11" in
  let s := db_run 2 cfg [(0, Post (Some 10%float) "inv-1");
                         (1, Post (Some 10%float) "inv-2")] Db.init in
  Db.find_match cfg (Ethers.formatUnits 10002000000000000000 18)
    (Db.select_pending (Db.invoices s))
  = Some (option_map Db.row_id
            (find (fun r => Db.pay_amount r =? 10002000000000000000)
                  (Db.select_pending (Db.invoices s)))).
Proof.
  intros cfg s.
  exact (proj2 (db_find_match_is_exact_with_18_decimals
                  cfg 10002000000000000000 s eq_refl)).
Defined.

(** X13.  When [POST /api/invoices] of the Postgres variant answers 200,
    [GET /api/invoices/:id] for the new id then returns that invoice,
    pending and without hash, its three amounts printed with 18 decimals
    and equal in smallest units to the ones of the answer; the invoices
    under other ids and the ledger are as before.  When the answer is not
    200 no row has been stored. *)
Theorem db_post_then_get
    (fuel : nat) (cfg : Config) (amount : option float) (new_id : string)
    (now : Z) (s : Db.State) :
  let out := Db.post_invoice fuel cfg amount new_id now s in
  Db.processed_txs (snd out) = Db.processed_txs s
  /\ (forall inv, fst out = R200 inv ->
        (exists got,
           db_get_invoice new_id (snd out) = Some got
           /\ id got = id inv /\ status got = pending /\ txHash got = None
           /\ toAddress got = toAddress inv
           /\ Ethers.parseUnits (requestedAmount got) 18
              = Ethers.parseUnits (requestedAmount inv) 18
           /\ Ethers.parseUnits (tag got) 18 = Ethers.parseUnits (tag inv) 18
           /\ Ethers.parseUnits (payAmount got) 18
              = Ethers.parseUnits (payAmount inv) 18)
        /\ forall k, k <> new_id ->
                     db_get_invoice k (snd out) = db_get_invoice k s)
  /\ ((forall inv, fst out <> R200 inv) -> Db.invoices (snd out) = Db.invoices s).
Proof.
  cbn zeta. pose proof (TableFacts.post_invoice_rows fuel cfg amount new_id now s) as H.
  cbn zeta in H. destruct H as [L H]. split; [exact L |].
  destruct H as [[N E] | (inv & vreq & vtag & vpay & R & I & P & T & Q1 & Q2 & Q3 & X1 & X2 & E)].
  - split; [| now intros _]. intros inv R. now destruct (N inv).
  - split; [| intros N; now destruct (N inv)].
    intros inv' R'. rewrite R in R'. injection R' as <-.
    unfold db_get_invoice. rewrite E. split.
    + rewrite filter_app, (NumericFacts.filter_none _ _ X1). cbn [filter app Db.row_id].
      rewrite String.eqb_refl. eexists. split; [reflexivity |].
      cbn [id status txHash toAddress requestedAmount tag payAmount].
      rewrite !NumericFacts.numeric_out_parse.
      rewrite (NumericFacts.numeric_in_parse _ _ Q1),
              (NumericFacts.numeric_in_parse _ _ Q2),
              (NumericFacts.numeric_in_parse _ _ Q3).
      repeat split; auto.
      unfold Db.post_invoice in R.
      destruct (amount_rejected amount); [discriminate |].
      destruct (Db.allocateTagFromDb fuel cfg s) as [[tg |] |]; try discriminate.
      cbn zeta in R.
      destruct (Db.insert_invoice _ _ _ _ _ _ _); [| discriminate].
      injection R as <-. reflexivity.
    + intros k Hk. rewrite filter_app. cbn [filter Db.row_id].
      apply String.eqb_neq in Hk. rewrite String.eqb_sym, Hk.
      now rewrite app_nil_r.
Qed.

(** ** Confirmations and the log *)

Module CountFacts.

Lemma confirm_absent (tx target : string) (rows : list Db.Row) :
  ~ In target (map Db.row_id rows) -> Db.confirm tx target rows = rows.
Proof.
  intros H. unfold Db.confirm. rewrite <- (map_id rows) at 2.
  apply map_ext_in. intros r Hin.
  destruct (String.eqb_spec (Db.row_id r) target) as [E | _]; [| reflexivity].
  destruct H. rewrite <- E. now apply in_map.
Qed.

Lemma count_cons (r : Db.Row) (l : list Db.Row) :
  count_confirmed (r :: l)
  = ((if is_pending (Db.row_status r) then 0 else 1) + count_confirmed l)%nat.
Proof. unfold count_confirmed. cbn. now destruct (is_pending (Db.row_status r)). Qed.

(** On a table with distinct ids, confirming the id of a pending row turns
    exactly that row. *)
Lemma confirm_counts (tx : string) (r : Db.Row) :
  forall rows,
    NoDup (map Db.row_id rows) -> In r rows -> Db.row_status r = pending ->
    count_confirmed (Db.confirm tx (Db.row_id r) rows) = S (count_confirmed rows).
Proof.
  induction rows as [| r0 rest IH]; intros N I P; [now destruct I |].
  cbn [map] in N. inversion N as [| ? ? N0 N']; subst.
  change (Db.confirm tx (Db.row_id r) (r0 :: rest))
    with ((if String.eqb (Db.row_id r0) (Db.row_id r) && is_pending (Db.row_status r0)
           then {| Db.row_id := Db.row_id r0;
                   Db.requested_amount := Db.requested_amount r0;
                   Db.row_tag := Db.row_tag r0; Db.pay_amount := Db.pay_amount r0;
                   Db.row_status := confirmed; Db.to_address := Db.to_address r0;
                   Db.created_at := Db.created_at r0; Db.tx_hash := Some tx |}
           else r0) :: Db.confirm tx (Db.row_id r) rest).
  rewrite !count_cons.
  destruct (String.eqb_spec (Db.row_id r0) (Db.row_id r)) as [E | D].
  - assert (r = r0).
    { destruct I as [-> | I]; [reflexivity |].
      destruct N0. rewrite E. now apply in_map. }
    subst r0. rewrite P. cbn [andb is_pending Db.row_status].
    rewrite confirm_absent by exact N0. reflexivity.
  - cbn [andb]. destruct I as [-> | I]; [now destruct D |].
    rewrite IH by assumption. lia.
Qed.

Lemma find_match_pending (cfg : Config) (received matched : string) :
  forall rows,
    Db.find_match cfg received rows = Some (Some matched) ->
    exists r, In r rows /\ Db.row_id r = matched.
Proof.
  induction rows as [| r rest IH]; intros H; cbn [Db.find_match] in H;
    [discriminate |].
  destruct (amountsEqual cfg _ received) as [[|] |]; [| | discriminate].
  - injection H as <-. exists r. split; [now left | reflexivity].
  - destruct (IH H) as (r' & I & E). exists r'. split; [now right | exact E].
Qed.

Lemma confirmations_snoc (l : list LogEvent) (e : LogEvent) :
  List.length (filter is_confirmation (l ++ [e]))
  = (List.length (filter is_confirmation l) + if is_confirmation e then 1 else 0)%nat.
Proof.
  rewrite filter_app, length_app. f_equal. cbn. now destruct (is_confirmation e).
Qed.

Lemma step_accounted (cfg : Config) (now : Z) (t : Transfer) (s : Db.State) :
  confirmations_accounted s -> confirmations_accounted (fst (Db.step cfg now t s)).
Proof.
  intros [K C]. unfold Db.step, Db.step_with; cbn [Db.rejects].
  destruct (String.eqb (toLowerCase (hash_text t)) ""); [now split |].
  destruct (negb _); [now split |].
  destruct (Db.is_processed _ _); [now split |].
  destruct (formatTokenAmount cfg (value t)) as [received |]; [| now split].
  destruct (Db.find_match cfg received _) as [[matched |] |] eqn:E;
    cbn [fst]; [| | now split].
  - destruct (find_match_pending cfg received matched _ E) as (r & I & <-).
    apply FrameFacts.in_select_pending in I as [I P].
    split; cbn [Db.invoices Db.log].
    + now apply TableFacts.kept_keys.
    + rewrite confirmations_snoc. cbn [is_confirmation].
      rewrite (confirm_counts (hash_text t) r _ (proj1 K) I P). lia.
  - split; cbn [Db.invoices Db.log]; [exact K |].
    rewrite confirmations_snoc. cbn [is_confirmation]. lia.
Qed.

Lemma steps_accounted (cfg : Config) (now : Z) (ts : list Transfer) : forall s,
  confirmations_accounted s -> confirmations_accounted (fst (Db.steps cfg now ts s)).
Proof.
  induction ts as [| t r IH]; intros s H; cbn [Db.steps]; [exact H |].
  pose proof (step_accounted cfg now t s H) as H1.
  destruct (Db.step cfg now t s) as [s1 []]; cbn [fst] in *; auto.
Qed.

Lemma depositLoop_accounted (cfg : Config) (now : Z)
    (answer : option (option FeedData)) (s : Db.State) :
  confirmations_accounted s ->
  confirmations_accounted (Db.depositLoop cfg now answer s).
Proof.
  intros H. unfold Db.depositLoop.
  assert (G : forall s0, confirmations_accounted s0 ->
                         confirmations_accounted (Db.add_log LogError s0)).
  { intros s0 [K C]. split; cbn [Db.add_log Db.invoices Db.log]; [exact K |].
    rewrite confirmations_snoc. cbn [is_confirmation]. lia. }
  destruct answer as [data |]; [| now apply G].
  pose proof (steps_accounted cfg now (fetchIncomingUsdtTransfers data) s H) as H1.
  destruct (Db.steps cfg now (fetchIncomingUsdtTransfers data) s) as [s1 []];
    cbn [fst] in H1; [now apply G |].
  exact H1.
Qed.

Lemma post_invoice_accounted (fuel : nat) (cfg : Config) (amount : option float)
    (new_id : string) (now : Z) (s : Db.State) :
  confirmations_accounted s ->
  confirmations_accounted (snd (Db.post_invoice fuel cfg amount new_id now s)).
Proof.
  intros [K C]. split; [now apply TableFacts.post_invoice_keys |].
  unfold Db.post_invoice.
  destruct (amount_rejected amount); [exact C |].
  destruct (Db.allocateTagFromDb fuel cfg s) as [[tg |] |]; [| exact C | exact C].
  cbn zeta.
  destruct (Db.insert_invoice _ _ _ _ _ _ _) as [rows |] eqn:E;
    cbn [snd Db.invoices Db.log Db.add_log].
  - unfold Db.insert_invoice in E.
    destruct (Db.numeric_in _) as [vreq |]; [| discriminate].
    destruct (Db.numeric_in _) as [vtag |]; [| discriminate].
    destruct (Db.numeric_in _) as [vpay |]; [| discriminate].
    destruct (existsb _ _); [discriminate |].
    destruct (existsb _ _); [discriminate |].
    injection E as <-. unfold count_confirmed in *.
    rewrite filter_app, length_app. cbn. rewrite Nat.add_0_r. exact C.
  - rewrite confirmations_snoc. cbn [is_confirmation].
    rewrite Nat.add_0_r. exact C.
Qed.

End CountFacts.

(** X14.  In every state the Postgres variant reaches from the empty
    tables, the number of confirmed invoices equals the number of
    confirmations the process has printed: each confirmation turned
    exactly one pending invoice, and no invoice became confirmed without
    one. *)
Theorem db_confirmations_are_accounted_for
    (fuel : nat) (cfg : Config) (evs : list (Z * DbEvent)) :
  confirmations_accounted (db_run fuel cfg evs Db.init).
Proof.
  assert (G : forall s, confirmations_accounted s ->
                        confirmations_accounted (db_run fuel cfg evs s)).
  { induction evs as [| [now [amount new_id | answer]] r IH]; intros s H;
      cbn [db_run]; [exact H | |].
    - apply IH. now apply CountFacts.post_invoice_accounted.
    - apply IH. now apply CountFacts.depositLoop_accounted. }
  apply G. split; [split; constructor | reflexivity].
Qed.

(** ** The ledger and the life of a row *)

Module LedgerFacts.

Lemma prune_wellformed (now : Z) (ledger : list (string * Z)) :
  ledger_wellformed ledger -> ledger_wellformed (Db.prune now ledger).
Proof.
  intros [N F]. unfold Db.prune. split.
  - induction ledger as [| e r IH]; [constructor |].
    cbn [map] in N. inversion N as [| ? ? N0 N']; subst.
    inversion F as [| ? ? _ F']; subst. cbn [filter].
    destruct (negb _); [| now apply IH].
    cbn [map]. constructor; [| now apply IH].
    intros H. apply N0. apply in_map_iff in H as (x & E & I).
    apply filter_In in I as [I _]. rewrite <- E. now apply in_map.
  - apply Forall_forall. intros e I. apply filter_In in I as [I _].
    rewrite Forall_forall in F. now apply F.
Qed.

Lemma mark_wellformed (h : string) (now : Z) (ledger : list (string * Z)) :
  toLowerCase h = h -> h <> "" ->
  ledger_wellformed ledger -> ledger_wellformed (Db.mark_processed h now ledger).
Proof.
  intros L E [N F]. unfold Db.mark_processed.
  destruct (Db.is_processed h ledger) eqn:P; [now split |].
  split.
  - rewrite map_app. cbn [map fst]. apply TableFacts.NoDup_snoc; [exact N |].
    intros H. apply in_map_iff in H as ([h' seen] & Eh & I). cbn in Eh. subst h'.
    rewrite (DedupFacts.is_processed_In h seen ledger I) in P. discriminate.
  - apply Forall_app. split; [exact F |]. constructor; [now split | constructor].
Qed.

Lemma step_wellformed (cfg : Config) (now : Z) (t : Transfer) (s : Db.State) :
  ledger_wellformed (Db.processed_txs s) ->
  ledger_wellformed (Db.processed_txs (fst (Db.step cfg now t s))).
Proof.
  intros H. unfold Db.step, Db.step_with; cbn [Db.rejects].
  destruct (String.eqb_spec (toLowerCase (hash_text t)) "") as [| E]; [exact H |].
  destruct (negb _); [exact H |].
  destruct (Db.is_processed _ _); [exact H |].
  destruct (formatTokenAmount cfg (value t)) as [received |]; [| exact H].
  destruct (Db.find_match cfg received _) as [[matched |] |];
    cbn [fst Db.processed_txs]; [| | exact H];
    (apply mark_wellformed; [apply DedupFacts.toLowerCase_idem | exact E | exact H]).
Qed.

Lemma steps_wellformed (cfg : Config) (now : Z) (ts : list Transfer) : forall s,
  ledger_wellformed (Db.processed_txs s) ->
  ledger_wellformed (Db.processed_txs (fst (Db.steps cfg now ts s))).
Proof.
  induction ts as [| t r IH]; intros s H; cbn [Db.steps]; [exact H |].
  pose proof (step_wellformed cfg now t s H) as H1.
  destruct (Db.step cfg now t s) as [s1 []]; cbn [fst] in *; auto.
Qed.

Lemma depositLoop_wellformed (cfg : Config) (now : Z)
    (answer : option (option FeedData)) (s : Db.State) :
  ledger_wellformed (Db.processed_txs s) ->
  ledger_wellformed (Db.processed_txs (Db.depositLoop cfg now answer s)).
Proof.
  intros H. unfold Db.depositLoop. destruct answer as [data |]; [| exact H].
  pose proof (steps_wellformed cfg now (fetchIncomingUsdtTransfers data) s H) as H1.
  destruct (Db.steps cfg now (fetchIncomingUsdtTransfers data) s) as [s1 []];
    cbn [fst] in H1; [exact H1 |].
  now apply prune_wellformed.
Qed.

Lemma continues_refl (rows : list Db.Row) : continues rows rows.
Proof. split; [exists []; now rewrite app_nil_r | auto]. Qed.

Lemma continues_trans (a b c : list Db.Row) :
  continues a b -> continues b c -> continues a c.
Proof.
  intros [[l1 E1] K1] [[l2 E2] K2]. split.
  - exists (l1 ++ l2)%list. now rewrite E2, E1, app_assoc.
  - auto.
Qed.

Lemma confirm_core (tx target : string) (rows : list Db.Row) :
  map row_core (Db.confirm tx target rows) = map row_core rows.
Proof.
  unfold Db.confirm. rewrite map_map. apply map_ext. intros r.
  now destruct (_ && _).
Qed.

Lemma confirm_continues (tx target : string) (rows : list Db.Row) :
  continues rows (Db.confirm tx target rows).
Proof.
  split.
  - exists []. now rewrite confirm_core, app_nil_r.
  - intros i r Hn Hc. rewrite (ConfirmFacts.confirm_nth _ _ _ _ _ Hn), Hc.
    now rewrite andb_false_r.
Qed.

Lemma step_continues (cfg : Config) (now : Z) (t : Transfer) (s : Db.State) :
  continues (Db.invoices s) (Db.invoices (fst (Db.step cfg now t s))).
Proof.
  destruct (DedupFacts.step_outcomes cfg now t s); cbn [fst Db.invoices];
    try apply continues_refl.
  apply confirm_continues.
Qed.

Lemma steps_continue (cfg : Config) (now : Z) (ts : list Transfer) : forall s,
  continues (Db.invoices s) (Db.invoices (fst (Db.steps cfg now ts s))).
Proof.
  induction ts as [| t r IH]; intros s; cbn [Db.steps]; [apply continues_refl |].
  pose proof (step_continues cfg now t s) as H1.
  destruct (Db.step cfg now t s) as [s1 []]; cbn [fst] in *; [exact H1 |].
  exact (continues_trans _ _ _ H1 (IH s1)).
Qed.

Lemma depositLoop_continues (cfg : Config) (now : Z)
    (answer : option (option FeedData)) (s : Db.State) :
  continues (Db.invoices s) (Db.invoices (Db.depositLoop cfg now answer s)).
Proof.
  unfold Db.depositLoop. destruct answer as [data |]; [| apply continues_refl].
  pose proof (steps_continue cfg now (fetchIncomingUsdtTransfers data) s) as H1.
  now destruct (Db.steps cfg now (fetchIncomingUsdtTransfers data) s) as [s1 []].
Qed.

Lemma post_invoice_continues (fuel : nat) (cfg : Config) (amount : option float)
    (new_id : string) (now : Z) (s : Db.State) :
  continues (Db.invoices s)
            (Db.invoices (snd (Db.post_invoice fuel cfg amount new_id now s))).
Proof.
  destruct (TableFacts.post_invoice_rows fuel cfg amount new_id now s)
    as (_ & [[_ E] | (inv & vreq & vtag & vpay & _ & _ & _ & _ & _ & _ & _ & _ & _ & E)]);
    cbn zeta in E; rewrite E; [apply continues_refl |].
  split.
  - eexists. now rewrite map_app.
  - intros i r Hn _. rewrite nth_error_app1; [exact Hn |].
    apply nth_error_Some. congruence.
Qed.

End LedgerFacts.

(** X15.  In every state the Postgres variant reaches from the empty
    tables, the hashes in [processed_txs] are distinct, lower-case and not
    empty. *)
Theorem db_ledger_stays_wellformed
    (fuel : nat) (cfg : Config) (evs : list (Z * DbEvent)) :
  ledger_wellformed (Db.processed_txs (db_run fuel cfg evs Db.init)).
Proof.
  assert (G : forall s, ledger_wellformed (Db.processed_txs s) ->
                        ledger_wellformed (Db.processed_txs (db_run fuel cfg evs s))).
  { induction evs as [| [now [amount new_id | answer]] r IH]; intros s H;
      cbn [db_run]; [exact H | |].
    - apply IH.
      now rewrite (proj1 (TableFacts.post_invoice_rows fuel cfg amount new_id now s)).
    - apply IH. now apply LedgerFacts.depositLoop_wellformed. }
  apply G. split; constructor.
Qed.

(** X16.  No history of invoice requests and cycles of the Postgres
    variant deletes or reorders an invoice or rewrites its id, amounts,
    address or creation time; and an invoice that is confirmed stays
    confirmed with the hash it has. *)
Theorem db_invoices_are_never_rewritten
    (fuel : nat) (cfg : Config) (evs : list (Z * DbEvent)) (s : Db.State) :
  continues (Db.invoices s) (Db.invoices (db_run fuel cfg evs s)).
Proof.
  revert s. induction evs as [| [now [amount new_id | answer]] r IH]; intros s;
    cbn [db_run]; [apply LedgerFacts.continues_refl | |].
  - exact (LedgerFacts.continues_trans _ _ _
             (LedgerFacts.post_invoice_continues fuel cfg amount new_id now s)
             (IH _)).
  - exact (LedgerFacts.continues_trans _ _ _
             (LedgerFacts.depositLoop_continues cfg now answer s) (IH _)).
Qed.

(** ** Taking a transfer up again *)

Module ReplayFacts.

Lemma in_confirm (tx target : string) (rows : list Db.Row) (r : Db.Row) :
  In r (Db.confirm tx target rows) -> Db.row_status r = pending ->
  In r rows /\ Db.row_id r <> target.
Proof.
  unfold Db.confirm. intros H P. apply in_map_iff in H as (r0 & E & I).
  destruct (String.eqb_spec (Db.row_id r0) target) as [Ei | Ni]; cbn [andb] in E.
  - destruct (is_pending (Db.row_status r0)) eqn:P0.
    + subst r. discriminate P.
    + subst r0. rewrite P in P0. discriminate.
  - subst r0. now split.
Qed.

Lemma NoDup_map_injective {A B : Type} (f : A -> B) (l : list A) (a b : A) :
  NoDup (map f l) -> In a l -> In b l -> f a = f b -> a = b.
Proof.
  induction l as [| x r IH]; intros N Ia Ib E; [now destruct Ia |].
  cbn [map] in N. inversion N as [| ? ? N0 N']; subst.
  destruct Ia as [-> | Ia], Ib as [-> | Ib]; trivial.
  - destruct N0. rewrite E. now apply in_map.
  - destruct N0. rewrite <- E. now apply in_map.
  - now apply IH.
Qed.

(** On a table with distinct pay amounts, once the pending row with a
    given amount is confirmed no pending row has that amount. *)
Lemma no_second_match (tx : string) (raw : Z) (rows : list Db.Row) (r : Db.Row) :
  NoDup (map Db.pay_amount rows) ->
  find (fun x => Db.pay_amount x =? raw) (Db.select_pending rows) = Some r ->
  find (fun x => Db.pay_amount x =? raw)
       (Db.select_pending (Db.confirm tx (Db.row_id r) rows)) = None.
Proof.
  intros N F. apply find_some in F as [I E].
  apply FrameFacts.in_select_pending in I as [I P]. apply Z.eqb_eq in E.
  destruct (find _ (Db.select_pending (Db.confirm tx (Db.row_id r) rows)))
    as [r' |] eqn:F'; [| reflexivity].
  apply find_some in F' as [I' E'].
  apply FrameFacts.in_select_pending in I' as [I' P']. apply Z.eqb_eq in E'.
  destruct (in_confirm _ _ _ _ I' P') as [Ir' D].
  destruct D. f_equal.
  apply (NoDup_map_injective Db.pay_amount rows r' r N Ir' I). congruence.
Qed.

Lemma find_match_id (cfg : Config) (raw : Z) (rows : list Db.Row) (matched : string) :
  DECIMALS cfg = 18%nat ->
  Db.find_match cfg (Ethers.formatUnits raw 18) rows = Some (Some matched) ->
  exists r, find (fun x => Db.pay_amount x =? raw) rows = Some r
            /\ Db.row_id r = matched.
Proof.
  intros D H. rewrite (NumericFacts.find_match_18 cfg raw D) in H.
  destruct (find _ rows) as [r |]; [| discriminate].
  exists r. split; [reflexivity |]. cbn in H. congruence.
Qed.

End ReplayFacts.

(** X17.  With 18 token decimals and a table with distinct pay amounts:
    when Postgres rejects the final [INSERT] into [processed_txs] of an
    iteration, the next iteration on the same transfer, with every query
    answered, changes no invoice.  It finds no pending invoice with the
    amount, since the one that had it is confirmed already, prints an
    unmatched deposit and records the transfer. *)
Theorem db_replay_after_rejected_insert_is_harmless
    (cfg : Config) (now later : Z) (t : Transfer) (raw : Z) (s s' : Db.State) :
  DECIMALS cfg = 18%nat ->
  NoDup (map Db.pay_amount (Db.invoices s)) ->
  value t = Some raw ->
  Db.step_with (Some Db.InsertLedger) cfg now t s = (s', true) ->
  Db.step cfg later t s'
  = ({| Db.invoices := Db.invoices s';
        Db.processed_txs :=
          (Db.processed_txs s ++ [(toLowerCase (hash_text t), later)])%list;
        Db.log := (Db.log s' ++ [LogNoMatch (Ethers.formatUnits raw 18)
                                   (toLowerCase (hash_text t))])%list |},
     false).
Proof.
  intros D N V H.
  assert (Q : toLowerCase (hash_text t) <> ""
              /\ toLowerCase (to t) = toLowerCase (wallet_address cfg)).
  { unfold Db.step_with in H.
    destruct (String.eqb_spec (toLowerCase (hash_text t)) ""); [discriminate |].
    destruct (String.eqb_spec (toLowerCase (to t)) (toLowerCase (wallet_address cfg)));
      [now split | discriminate]. }
  destruct Q as [Qh Qt].
  assert (F : formatTokenAmount cfg (value t) = Some (Ethers.formatUnits raw 18)).
  { rewrite V. unfold formatTokenAmount. now rewrite D. }
  destruct (ThrowFacts.step_with_throws cfg now t _ s s' H) as [L C].
  assert (G : Db.is_processed (toLowerCase (hash_text t)) (Db.processed_txs s) = false
              /\ Db.find_match cfg (Ethers.formatUnits raw 18)
                   (Db.select_pending (Db.invoices s')) = Some None).
  { destruct C as [-> | (_ & P & received & Fr & C)].
    - (* the iteration threw before any query changed the state: not with
         18 decimals and a readable value *)
      exfalso. unfold Db.step_with in H. apply String.eqb_neq in Qh.
      rewrite Qh, Qt, String.eqb_refl, F in H. cbn [negb Db.rejects Db.query_eqb] in H.
      destruct (Db.is_processed _ _); [discriminate |].
      rewrite (NumericFacts.find_match_18 cfg raw D) in H.
      destruct (find _ _); cbn [option_map] in H; cbn zeta in H.
      + injection H as H. apply (f_equal Db.log) in H. cbn [Db.log] in H.
        apply (f_equal (@List.length LogEvent)) in H.
        rewrite length_app in H. cbn in H. lia.
      + injection H as H. apply (f_equal Db.log) in H. cbn [Db.log] in H.
        apply (f_equal (@List.length LogEvent)) in H.
        rewrite length_app in H. cbn in H. lia.
    - split; [exact P |]. rewrite F in Fr. injection Fr as <-.
      destruct C as [(M & I & _) | (matched & M & I & _)]; rewrite I.
      + exact M.
      + destruct (ReplayFacts.find_match_id cfg raw _ matched D M) as (r & Fr & <-).
        rewrite (NumericFacts.find_match_18 cfg raw D).
        now rewrite (ReplayFacts.no_second_match _ raw _ r N Fr). }
  destruct G as [P M].
  unfold Db.step, Db.step_with. cbn [Db.rejects].
  apply String.eqb_neq in Qh. rewrite Qh, Qt, String.eqb_refl, L, P, F, M.
  cbn [negb]. unfold Db.mark_processed. rewrite P. reflexivity.
Qed.

Lemma db_replay_after_rejected_insert_is_harmless_witness :
  let cfg := default_config "0xAa11" in
  let s := snd (Db.post_invoice 1 cfg (Some 10%float) "inv-1" 0 Db.init) in
  let t := {| timeStamp := 1700000000; to := "0xaa11";
              value := Some 10001000000000000000; hash := Some "0xBEEF" |} in
  let s' := fst (Db.step_with (Some Db.InsertLedger) cfg 12 t s) in
  option_map Db.row_status (db_row "inv-1" s') = Some confirmed
  /\ Db.processed_txs s' = []
  /\ Db.invoices (fst (Db.step cfg 24 t s')) = Db.invoices s'
  /\ Db.processed_txs (fst (Db.step cfg 24 t s')) = [("0xbeef", 24)].
Proof.
  intros cfg s t s'.
  assert (N : NoDup (map Db.pay_amount (Db.invoices s)))
    by (vm_compute; repeat constructor; intros []).
  assert (H : Db.step_with (Some Db.InsertLedger) cfg 12 t s = (s', true))
    by (vm_compute; reflexivity).
  pose proof (db_replay_after_rejected_insert_is_harmless
                cfg 12 24 t 10001000000000000000 s s' eq_refl N eq_refl H) as E.
  split; [vm_compute; reflexivity |]. split; [vm_compute; reflexivity |].
  rewrite E. split; [reflexivity | vm_compute; reflexivity].
Defined.
